(** * Verus release installer: a shallow embedding of
      [verus_installer_from_release.py] and the properties of its pipeline.

    The development follows the script function by function.  Python strings
    are [string]s of 8-bit characters ([str.lower] acts on the letters A-Z),
    byte strings are [list byte], dictionaries are [gmap]s, the file system is
    a tree of directories whose entries are kept in listing order, exceptions
    are a [result] type and printed lines are collected in a trace. *)

From Stdlib Require Import ZArith Ascii String List Bool Lia.
From Stdlib Require Import Init.Byte Sorting.Sorted.
From stdpp Require Import base option list strings pretty gmap.

Local Open Scope Z_scope.

(* ===================================================================== *)
(** * Python primitives                                                   *)
(* ===================================================================== *)

(** ** Exceptions and printed output *)

Inductive exn : Type :=
  | OSError (what : string)      (* IOError, FileNotFoundError, ... *)
  | ValueError
  | IndexError
  | Exception (msg : string).    (* raise Exception(msg) *)

Inductive result (A : Type) : Type :=
  | Ok (a : A)
  | Raise (e : exn).
Arguments Ok {A} a.
Arguments Raise {A} e.

(** Sequencing of calls that may raise: the first exception propagates. *)
#[global] Instance result_ret : MRet result := fun A a => Ok a.
#[global] Instance result_bind : MBind result := fun A B k r =>
  match r with
  | Ok a => k a
  | Raise e => Raise e
  end.

(** [print(...)]: the lines written to standard output, oldest first. *)
Abbreviation trace := (list string).

(** ** [str] methods *)

(** [c.lower()] on one character: A-Z (65..90) move to a-z. *)
Definition lower_ascii (c : ascii) : ascii :=
  let n := nat_of_ascii c in
  if ((65 <=? n)%nat && (n <=? 90)%nat)%bool then ascii_of_nat (n + 32) else c.

(** [s.lower()] *)
Fixpoint lower (s : string) : string :=
  match s with
  | EmptyString => EmptyString
  | String c s' => String (lower_ascii c) (lower s')
  end.

(** [s.startswith(p)] *)
Definition startswith (s p : string) : bool := String.prefix p s.

(** [s.endswith(p)]: [s] is [p], or the tail of [s] ends with [p]. *)
Fixpoint endswith (s p : string) : bool :=
  if String.eqb s p then true
  else match s with
       | EmptyString => false
       | String _ s' => endswith s' p
       end.

(** [s.startswith((p1, p2, ...))] and [s.endswith((p1, p2, ...))] *)
Definition startswith_any (s : string) (ps : list string) : bool :=
  existsb (startswith s) ps.
Definition endswith_any (s : string) (ps : list string) : bool :=
  existsb (endswith s) ps.

(** [p in s] on strings: [p] occurs in [s] as a contiguous substring. *)
Fixpoint contains (p s : string) : bool :=
  if String.prefix p s then true
  else match s with
       | EmptyString => false
       | String _ s' => contains p s'
       end.

(** [x in xs] on a list of strings. *)
Definition str_in (x : string) (xs : list string) : bool :=
  existsb (String.eqb x) xs.

(** [s.rfind(c)]: the index of the last occurrence, [None] for Python's -1. *)
Fixpoint rfind (c : ascii) (s : string) : option nat :=
  match s with
  | EmptyString => None
  | String a s' =>
      match rfind c s' with
      | Some i => Some (S i)
      | None => if Ascii.eqb a c then Some O else None
      end
  end.

(** [header.startswith(magic)] on byte strings. *)
Fixpoint bytes_startswith (bs magic : list byte) : bool :=
  match magic, bs with
  | [], _ => true
  | m :: magic', b :: bs' => Byte.eqb b m && bytes_startswith bs' magic'
  | _ :: _, [] => false
  end.

(** Truthiness of an optional string: [None] and [''] are falsy. *)
Definition truthy (o : option string) : bool :=
  match o with
  | Some (String _ _) => true
  | _ => false
  end.

(* ===================================================================== *)
(** * Platform Resolver: [get_platform_asset_pattern]                     *)
(* ===================================================================== *)

(** The dictionary literal [patterns]: OS family -> architecture -> tag. *)
Definition patterns : gmap string (gmap string string) :=
  <["linux" := <["x86_64" := "x86-linux"]> (<["amd64" := "x86-linux"]> ∅)]>
  (<["darwin" := <["x86_64" := "x86-macos"]> (<["amd64" := "x86-macos"]>
                 (<["arm64" := "arm64-macos"]> ∅))]>
  (<["windows" := <["x86_64" := "x86-win"]> (<["amd64" := "x86-win"]> ∅)]> ∅)).

(** [system] and [machine] are the values of [platform.system()] and
    [platform.machine()]. *)
Definition get_platform_asset_pattern (system machine : string)
  : trace * option string :=
  let system := lower system in
  let machine := lower machine in
  match patterns !! system with
  | Some by_machine =>
      match by_machine !! machine with
      | Some tag => ([], Some tag)
      | None => (["Warning: Unknown platform " +:+ system +:+ "-" +:+ machine], None)
      end
  | None => (["Warning: Unknown platform " +:+ system +:+ "-" +:+ machine], None)
  end.

(** The table as the documentation gives it: one row per supported
    (OS family, architecture) pair. *)
Definition platform_table : list (string * string * string) :=
  [ ("linux", "x86_64", "x86-linux"); ("linux", "amd64", "x86-linux");
    ("darwin", "x86_64", "x86-macos"); ("darwin", "amd64", "x86-macos");
    ("darwin", "arm64", "arm64-macos");
    ("windows", "x86_64", "x86-win"); ("windows", "amd64", "x86-win") ].

(* ===================================================================== *)
(** * Asset Selector: [find_asset_for_platform]                           *)
(* ===================================================================== *)

Record asset : Type := mk_asset {
  name : string;
  size : Z;
  browser_download_url : string
}.

(** [platform_pattern] is [None] for Python's [None]. *)
Definition find_asset_for_platform (assets : list asset)
    (platform_pattern : option string) : option asset :=
  if negb (truthy platform_pattern) then None
  else
    let pat := default EmptyString platform_pattern in
    find (fun a => contains pat (lower (name a))) assets.

(* ===================================================================== *)
(** * [pathlib] and the file system                                       *)
(* ===================================================================== *)

(** The file system is one tree, addressed from its root.  It holds regular
    files and directories only (no links or devices), names are compared
    exactly, and the process that runs the script owns every node and is not
    privileged: a file opens for reading when its owner-read bit is set, and
    removing, creating and copying ask the owner's bits of the directories
    they change or copy.  Looking a path up and walking a tree are modelled
    for directories that can be listed and searched. *)

(** A [Path] is absolute and normalised: the list of its components below
    the root directory. *)
Definition path : Type := list string.

(** [str(p)] *)
Definition path_str (p : path) : string := "/" +:+ String.concat "/" p.

(** [p.name] *)
Definition path_name (p : path) : string := List.last p EmptyString.

(** [p.parent] *)
Definition parent (p : path) : path := removelast p.

(** [p.suffix]: the text from the last dot of the name on, unless that dot
    opens or closes the name. *)
Definition suffix (p : path) : string :=
  let nm := path_name p in
  match rfind "." nm with
  | Some i =>
      if ((0 <? i)%nat && (i <? String.length nm - 1)%nat)%bool
      then substring i (String.length nm - i) nm
      else EmptyString
  | None => EmptyString
  end.

(** A file has its [st_mode] and its bytes; a directory has its [st_mode] and
    its entries in the order a listing returns them. *)
#[local] Unset Elimination Schemes.
Inductive node : Type :=
  | File (st_mode : Z) (data : list byte)
  | Dir (st_mode : Z) (entries : list (string * node)).
#[local] Set Elimination Schemes.

Definition mode_of (n : node) : Z :=
  match n with
  | File m _ => m
  | Dir m _ => m
  end.

Definition set_mode (m : Z) (n : node) : node :=
  match n with
  | File _ d => File m d
  | Dir _ es => Dir m es
  end.

(** The entry called [c] in a listing. *)
Fixpoint entry (c : string) (es : list (string * node)) : option node :=
  match es with
  | [] => None
  | (c', n) :: es' => if String.eqb c c' then Some n else entry c es'
  end.

Fixpoint alter_entry (c : string) (f : node -> node)
    (es : list (string * node)) : list (string * node) :=
  match es with
  | [] => []
  | (c', n) :: es' =>
      if String.eqb c c' then (c', f n) :: es' else (c', n) :: alter_entry c f es'
  end.

Definition drop_entry (c : string) (es : list (string * node))
  : list (string * node) :=
  List.filter (fun e => negb (String.eqb c (fst e))) es.

(** The node that the path [p] names, starting at the root [n]. *)
Fixpoint node_at (p : path) (n : node) : option node :=
  match p with
  | [] => Some n
  | c :: p' =>
      match n with
      | Dir _ es =>
          match entry c es with
          | Some ch => node_at p' ch
          | None => None
          end
      | File _ _ => None
      end
  end.

Fixpoint alter_at (f : node -> node) (p : path) (n : node) : node :=
  match p with
  | [] => f n
  | c :: p' =>
      match n with
      | Dir m es => Dir m (alter_entry c (alter_at f p') es)
      | File _ _ => n
      end
  end.

(** [p.exists()], [p.is_file()] *)
Definition exists_ (fs : node) (p : path) : bool :=
  match node_at p fs with
  | Some _ => true
  | None => false
  end.

Definition is_file (fs : node) (p : path) : bool :=
  match node_at p fs with
  | Some (File _ _) => true
  | _ => false
  end.

(** [os.chmod(p, m)]; the script only passes the current [st_mode] with
    permission bits added, so the new [st_mode] is [m] itself. *)
Definition chmod (p : path) (m : Z) (fs : node) : node :=
  alter_at (set_mode m) p fs.

(** [stat.S_IEXEC] (= S_IXUSR, 0o100) and the owner's read bit S_IRUSR
    (0o400), bit 8. *)
Definition S_IEXEC : Z := 64.
Definition S_IRUSR_bit : Z := 8.

(** The owner's write bit S_IWUSR (0o200), bit 7, and search bit S_IXUSR
    (0o100), bit 6.  The process owns the tree and is not privileged, so
    these bits decide what it may do in a directory: listing it takes the
    read bit, reaching its entries the search bit, adding or removing an
    entry the write and the search bit.  Every directory above the paths the
    script is given can be searched. *)
Definition S_IWUSR_bit : Z := 7.
Definition S_IXUSR_bit : Z := 6.

Definition can_write_dir (m : Z) : bool :=
  Z.testbit m S_IWUSR_bit && Z.testbit m S_IXUSR_bit.

(** [open(p, 'rb').read(4)].  The process owns the tree and is not
    privileged: opening succeeds on a file the owner may read. *)
Definition read_header (fs : node) (p : path) : result (list byte) :=
  match node_at p fs with
  | Some (File m d) =>
      if Z.testbit m S_IRUSR_bit then Ok (firstn 4 d)
      else Raise (OSError "Permission denied")
  | Some (Dir _ _) => Raise (OSError "Is a directory")
  | None => Raise (OSError "No such file or directory")
  end.

(** The directories below [top] in top-down order, each with its listing:
    the traversal behind both [os.walk] and [Path.rglob]. *)
Fixpoint walk_dirs (top : path) (n : node) : list (path * list (string * node)) :=
  match n with
  | File _ _ => []
  | Dir _ es => (top, es) :: flat_map (fun e => walk_dirs (top ++ [fst e]) (snd e)) es
  end.

Definition is_dir_node (n : node) : bool :=
  match n with
  | Dir _ _ => true
  | File _ _ => false
  end.

Definition dirnames (es : list (string * node)) : list string :=
  map fst (List.filter (fun e => is_dir_node (snd e)) es).
Definition filenames (es : list (string * node)) : list string :=
  map fst (List.filter (fun e => negb (is_dir_node (snd e))) es).

(** [os.walk(top)]: the triples (root, dirs, files); nothing when [top] is
    not a directory. *)
Definition os_walk (fs : node) (top : path)
  : list (path * list string * list string) :=
  match node_at top fs with
  | Some n => map (fun d => (fst d, dirnames (snd d), filenames (snd d))) (walk_dirs top n)
  | None => []
  end.

(** [top.rglob('*')]: every entry of every directory below [top]. *)
Definition rglob (fs : node) (top : path) : list path :=
  match node_at top fs with
  | Some n => flat_map (fun d => map (fun e => fst d ++ [fst e]) (snd d)) (walk_dirs top n)
  | None => []
  end.

(** [shutil.rmtree(p)] *)
Fixpoint remove_at (p : path) (n : node) : node :=
  match p with
  | [] => n
  | c :: p' =>
      match n with
      | Dir m es =>
          match p' with
          | [] => Dir m (drop_entry c es)
          | _ :: _ => Dir m (alter_entry c (remove_at p') es)
          end
      | File _ _ => n
      end
  end.

(** What [shutil.rmtree] needs inside the tree it removes: it opens and
    lists every directory, and unlinks every entry from the directory that
    holds it. *)
Fixpoint can_empty (n : node) : bool :=
  match n with
  | File _ _ => true
  | Dir m es =>
      Z.testbit m S_IRUSR_bit
      && match es with
         | [] => true
         | _ :: _ => can_write_dir m
         end
      && forallb (fun e => can_empty (snd e)) es
  end.

(** The directory that holds [p] lets its owner add and remove entries. *)
Definition parent_writable (p : path) (fs : node) : bool :=
  match node_at (parent p) fs with
  | Some (Dir m _) => can_write_dir m
  | _ => false
  end.

(** [shutil.rmtree(p)] with no error handler: the first failure is raised.
    What a failed call has removed by then is not part of the model. *)
Definition rmtree (p : path) (fs : node) : result node :=
  match node_at p fs with
  | Some (Dir m es) =>
      match p with
      | [] => Raise (OSError "Device or resource busy")
      | _ :: _ =>
          if can_empty (Dir m es) && parent_writable p fs
          then Ok (remove_at p fs)
          else Raise (OSError "Permission denied")
      end
  | Some (File _ _) => Raise (OSError "Not a directory")
  | None => Raise (OSError "No such file or directory")
  end.

(** [os.makedirs] below a missing entry: the directories [p] around [new];
    [dmode] is the mode new directories get (0o777 less the umask). *)
Definition makedirs (dmode : Z) (p : path) (new : node) : node :=
  fold_right (fun c acc => Dir dmode [(c, acc)]) new p.

(** Create [new] at [p]: missing parents are made, an existing [p] is an
    error, and so is a file on the way.  The first missing entry is made in
    a directory that is there and must let its owner write; what lies
    between it and [p] is made in directories of mode [dmode]. *)
Fixpoint put_at (dmode : Z) (p : path) (new : node) (n : node) : result node :=
  match p with
  | [] => Raise (OSError "File exists")
  | c :: p' =>
      match n with
      | File _ _ => Raise (OSError "Not a directory")
      | Dir m es =>
          match entry c es with
          | Some ch =>
              ch' ← put_at dmode p' new ch;
              Ok (Dir m (alter_entry c (fun _ => ch') es))
          | None =>
              if can_write_dir m
                 && match p' with
                    | [] => true
                    | _ :: _ => can_write_dir dmode
                    end
              then Ok (Dir m (es ++ [(c, makedirs dmode p' new)]))
              else Raise (OSError "Permission denied")
          end
      end
  end.

(** The whole tree can be copied by its owner: every file can be opened for
    reading, every directory can be listed, and the entries of a directory
    that has any can be reached. *)
Fixpoint all_readable (n : node) : bool :=
  match n with
  | File m _ => Z.testbit m S_IRUSR_bit
  | Dir m es =>
      Z.testbit m S_IRUSR_bit
      && match es with
         | [] => true
         | _ :: _ => Z.testbit m S_IXUSR_bit
         end
      && forallb (fun e => all_readable (snd e)) es
  end.

(** [shutil.copytree(src, dst)]: [src] is listed, then [dst], which must not
    exist, is made with its missing parents, then the entries are copied;
    what cannot be copied is collected and raised at the end.  Files keep
    their bytes and modes ([copy2]); a directory is made with mode [dmode],
    filled, and given the mode of its source last ([copystat]).  The copy is
    of the tree as it stands when the call starts. *)
Definition copytree (dmode : Z) (src dst : path) (fs : node) : result node :=
  match node_at src fs with
  | Some (Dir m es) =>
      if Z.testbit m S_IRUSR_bit then
        fs' ← put_at dmode dst (Dir m es) fs;
        if all_readable (Dir m es)
           && match es with
              | [] => true
              | _ :: _ => can_write_dir dmode
              end
        then Ok fs'
        else Raise (OSError "shutil.Error")
      else Raise (OSError "Permission denied")
  | Some (File _ _) => Raise (OSError "Not a directory")
  | None => Raise (OSError "No such file or directory")
  end.

(* ===================================================================== *)
(** * Archive Extractor: [extract_archive]                                *)
(* ===================================================================== *)

(** Which reader the archive is handed to. *)
Inductive archive_reader : Type :=
  | ZipFile_extractall       (* zipfile.ZipFile(archive_path).extractall *)
  | TarGz_extractall.        (* tarfile.open(archive_path, 'r:gz').extractall *)

(** The dispatch of [extract_archive]: [Ok r] when the archive is handed to
    the reader [r], [Raise] when the function raises before any reader is
    called.  What the readers do with the bytes is theirs. *)
Definition extract_archive (archive_path extract_to : path)
  : trace * result archive_reader :=
  let out := ["Extracting " +:+ path_name archive_path +:+ "..."] in
  if String.eqb (lower (suffix archive_path)) ".zip" then
    (out ++ ["Extracted to: " +:+ path_str extract_to], Ok ZipFile_extractall)
  else if endswith_any (path_name archive_path) [".tar.gz"; ".tgz"] then
    (out ++ ["Extracted to: " +:+ path_str extract_to], Ok TarGz_extractall)
  else
    (out, Raise (Exception ("Unsupported archive format: " +:+ suffix archive_path))).

(** The test [main] makes on the downloaded file before it calls
    [extract_archive]. *)
Definition main_is_archive (filename : path) : bool :=
  str_in (lower (suffix filename)) [".zip"]
  || endswith_any (path_name filename) [".tar.gz"; ".tgz"].

(* ===================================================================== *)
(** * Installation Builder                                                *)
(* ===================================================================== *)

Definition find_in_walk (binary_name : string)
    (walk : list (path * list string * list string)) : option path :=
  match find (fun t => str_in binary_name (snd t)) walk with
  | Some t => Some (fst (fst t) ++ [binary_name])
  | None => None
  end.

(** The loop [for binary_name in binary_names] of [find_verus_binary]. *)
Fixpoint find_verus_binary_loop (fs : node) (extract_dir : path)
    (binary_names : list string) : option path :=
  match binary_names with
  | [] => None
  | binary_name :: rest =>
      let binary_path := extract_dir ++ [binary_name] in
      if exists_ fs binary_path then Some binary_path
      else match find_in_walk binary_name (os_walk fs extract_dir) with
           | Some found => Some found
           | None => find_verus_binary_loop fs extract_dir rest
           end
  end.

Definition find_verus_binary (fs : node) (extract_dir : path) : option path :=
  find_verus_binary_loop fs extract_dir ["verus"; "verus.exe"].

(** [system] is the value of [platform.system()]. *)
Definition make_executable (system : string) (file_path : path) (fs : node)
  : result node :=
  if negb (String.eqb system "Windows") then
    match node_at file_path fs with
    | Some n => Ok (chmod file_path (Z.lor (mode_of n) S_IEXEC) fs)
    | None => Raise (OSError "No such file or directory")
    end
  else Ok fs.

Definition elf_magic : list byte := [x7f; x45; x4c; x46].
Definition macho_magics : list (list byte) :=
  [ [xfe; xed; xfa; xce]; [xfe; xed; xfa; xcf];
    [xce; xfa; xed; xfe]; [xcf; xfa; xed; xfe] ].
Definition mz_magic : list byte := [x4d; x5a].

(** The test "is likely a binary file" that guards the read of the header. *)
Definition likely_binary (file_path : path) : bool :=
  String.eqb (suffix file_path) ""
  || String.eqb (suffix file_path) ".exe"
  || startswith (path_name file_path) "rust_"
  || startswith (path_name file_path) "verus"
  || contains "bin" (lower (path_str (parent file_path))).

Definition known_name (file_path : path) : bool :=
  str_in (path_name file_path) ["verus"; "rust_verify"; "z3"]
  || startswith_any (path_name file_path) ["rust_"; "verus"].

(** The message printed for a file that is made executable, if any. *)
Definition classify (header : list byte) (file_path : path) : option string :=
  if bytes_startswith header elf_magic then Some "Making executable: "
  else if existsb (bytes_startswith header) macho_magics then Some "Making executable: "
  else if bytes_startswith header mz_magic then Some "Making executable: "
  else if known_name file_path then Some "Making executable by name: "
  else None.

(** One turn of the loop over [install_dir.rglob('*')]; an [OSError] inside
    the [try] leaves the file as it is. *)
Definition normalize_step (system : string) (st : trace * node)
    (file_path : path) : trace * node :=
  let (out, fs) := st in
  if is_file fs file_path then
    if likely_binary file_path then
      match read_header fs file_path with
      | Ok header =>
          match classify header file_path with
          | Some msg =>
              let out := out ++ [msg +:+ path_str file_path] in
              match make_executable system file_path fs with
              | Ok fs' => (out, fs')
              | Raise _ => (out, fs)
              end
          | None => (out, fs)
          end
      | Raise _ => (out, fs)
      end
    else (out, fs)
  else (out, fs).

Definition make_all_binaries_executable (system : string) (install_dir : path)
    (fs : node) : trace * node :=
  if String.eqb system "Windows" then ([], fs)
  else fold_left (normalize_step system) (rglob fs install_dir) ([], fs).

(** [home] is [Path.home()]; [install_dir] is [None] when the caller gave
    none.  The result is the trace, the new file system, the install
    directory and the installed binary. *)
Definition setup_verus_installation (system : string) (dmode : Z) (home : path)
    (extract_dir : path) (install_dir : option path) (fs : node)
  : result (trace * node * path * path) :=
  let install_dir := default (home ++ ["verus"]) install_dir in
  match find_verus_binary fs extract_dir with
  | None => Raise (Exception "Could not find verus binary in extracted files")
  | Some verus_binary =>
      let out := ["Found verus binary: " +:+ path_str verus_binary] in
      let binary_dir := parent verus_binary in
      st ← (if exists_ fs install_dir
            then fs' ← rmtree install_dir fs;
                 Ok (out ++ ["Removing existing installation at " +:+ path_str install_dir], fs')
            else Ok (out, fs));
      let out := fst st ++ ["Installing Verus to: " +:+ path_str install_dir] in
      fs ← copytree dmode binary_dir install_dir (snd st);
      let st := make_all_binaries_executable system install_dir fs in
      let installed_binary := install_dir ++ [path_name verus_binary] in
      fs ← make_executable system installed_binary (snd st);
      Ok (out ++ fst st, fs, install_dir, installed_binary)
  end.

(** ** Notions used to state what discovery finds *)

(** Some directory of the tree lists a file called [nm]. *)
Fixpoint has_file_named (nm : string) (n : node) : bool :=
  match n with
  | File _ _ => false
  | Dir _ es =>
      existsb (fun e => match snd e with
                        | File _ _ => String.eqb (fst e) nm
                        | Dir _ _ => has_file_named nm (snd e)
                        end) es
  end.


(** What [os.stat] and a read show of the node at [p]: its mode and, for a
    file, its bytes. *)
Definition look (fs : node) (p : path) : option (Z * option (list byte)) :=
  match node_at p fs with
  | Some (File m d) => Some (m, Some d)
  | Some (Dir m _) => Some (m, None)
  | None => None
  end.

Definition add_exec (v : Z * option (list byte)) : Z * option (list byte) :=
  (Z.lor (fst v) S_IEXEC, snd v).

(** The header of the bytes [d] is one of the native-executable magic
    numbers. *)
Definition has_magic (d : list byte) : bool :=
  bytes_startswith (firstn 4 d) elf_magic
  || existsb (bytes_startswith (firstn 4 d)) macho_magics
  || bytes_startswith (firstn 4 d) mz_magic.

(** The file at [file_path], with mode [m] and bytes [d], is one that
    normalization makes executable: it passes the "likely a binary" test, it
    can be read, and its header or its name is a known one. *)
Definition recognized (file_path : path) (m : Z) (d : list byte) : bool :=
  likely_binary file_path && Z.testbit m S_IRUSR_bit
  && (has_magic d || known_name file_path).

(** What normalization does to what [look] shows at [file_path]. *)
Definition touch (file_path : path) (v : Z * option (list byte))
  : Z * option (list byte) :=
  match v with
  | (m, Some d) => if recognized file_path m d then add_exec v else v
  | (_, None) => v
  end.

(** [p] is [q] or an ancestor of [q]. *)
Fixpoint is_prefix (p q : path) : bool :=
  match p, q with
  | [], _ => true
  | c :: p', c' :: q' => String.eqb c c' && is_prefix p' q'
  | _ :: _, [] => false
  end.

(** Neither path lies in or above the other. *)
Definition path_disjoint (p q : path) : bool :=
  negb (is_prefix p q) && negb (is_prefix q p).

(** No directory lists a name twice. *)
Fixpoint wf (n : node) : bool :=
  match n with
  | File _ _ => true
  | Dir _ es =>
      bool_decide (NoDup (map fst es)) && forallb (fun e => wf (snd e)) es
  end.

(** Every directory of the tree can be listed and searched by its owner, so
    that a walk sees all of it. *)
Fixpoint walkable (n : node) : bool :=
  match n with
  | File _ _ => true
  | Dir m es =>
      Z.testbit m S_IRUSR_bit && Z.testbit m S_IXUSR_bit
      && forallb (fun e => walkable (snd e)) es
  end.



(* ===================================================================== *)
(** * Path Configurator                                                   *)
(* ===================================================================== *)

Definition dquote : string := String (ascii_of_nat 34) EmptyString.
Definition nl : string := String (ascii_of_nat 10) EmptyString.

(** The shell start-up files of the home directory: file name -> text.
    [SHELL] is [os.environ.get('SHELL', '')]. *)
Definition get_shell_config_file (SHELL : string) (files : gmap string string)
  : string :=
  let shell := lower SHELL in
  let config_files :=
    if contains "zsh" shell then [".zshrc"; ".zprofile"]
    else if contains "bash" shell then [".bashrc"; ".bash_profile"; ".profile"]
    else [".zshrc"; ".bashrc"; ".bash_profile"; ".profile"] in
  default ".bashrc"
    (find (fun config_file => bool_decide (is_Some (files !! config_file))) config_files).

Definition path_line (install_dir : path) : string :=
  "export PATH=" +:+ dquote +:+ path_str install_dir +:+ ":$PATH" +:+ dquote
  +:+ "  # Added by Verus installer".

(** What [f.write] appends. *)
Definition path_block (install_dir : path) : string :=
  nl +:+ "# Verus installation" +:+ nl +:+ path_line install_dir +:+ nl.

Definition CR : ascii := ascii_of_nat 13.
Definition LF : ascii := ascii_of_nat 10.

(** Reading in text mode with universal newlines: a carriage return, with
    the line feed that follows it if there is one, is read as one line feed.
    [after_cr] tells that the character just read was a carriage return. *)
Fixpoint universal_newlines (after_cr : bool) (s : string) : string :=
  match s with
  | EmptyString => EmptyString
  | String c s' =>
      if Ascii.eqb c CR then String LF (universal_newlines true s')
      else if Ascii.eqb c LF && after_cr then universal_newlines false s'
      else String c (universal_newlines false s')
  end.

(** [Path.read_text()] of a file that holds [content].  Text written on a
    POSIX system is stored as it is, so [content] is what [f.write] was
    given. *)
Definition read_text (content : string) : string :=
  universal_newlines false content.

(** The character [c] occurs in [s]. *)
Fixpoint has_char (c : ascii) (s : string) : bool :=
  match s with
  | EmptyString => false
  | String d s' => Ascii.eqb d c || has_char c s'
  end.

(** The result is the trace, the start-up files afterwards and the name of
    the chosen file (below [Path.home()]). *)
Definition update_path_in_shell_config (SHELL : string) (home install_dir : path)
    (files : gmap string string) : trace * gmap string string * string :=
  let config_file := get_shell_config_file SHELL files in
  let shown := path_str (home ++ [config_file]) in
  let add (content : string) :=
    (["Adding Verus to PATH in " +:+ shown],
     <[config_file := content +:+ path_block install_dir]> files,
     config_file) in
  match files !! config_file with
  | Some content =>
      if contains (path_str install_dir) (read_text content)
      then (["PATH already configured in " +:+ shown], files, config_file)
      else add content
  | None => add EmptyString
  end.

(* ===================================================================== *)
(** * [main]: asset selection and the hand-over to the extractor          *)
(* ===================================================================== *)

(** How a stage of [main] ends: it goes on with a value, [main] returns (the
    process ends with status 0), or [sys.exit(code)] is called. *)
Inductive outcome (A : Type) : Type :=
  | Continue (a : A)
  | Return
  | SysExit (code : Z).
Arguments Continue {A} a.
Arguments Return {A}.
Arguments SysExit {A} code.

Definition exit_status {A : Type} (o : outcome A) : option Z :=
  match o with
  | Continue _ => None
  | Return => Some 0
  | SysExit code => Some code
  end.

(** [assets[i]] with Python's negative indices. *)
Definition py_index (assets : list asset) (i : Z) : result asset :=
  let n := Z.of_nat (length assets) in
  let j := if i <? 0 then i + n else i in
  if (j <? 0) || (n <=? j) then Raise IndexError
  else match assets !! Z.to_nat j with
       | Some a => Ok a
       | None => Raise IndexError
       end.

(** [args.platform or get_platform_asset_pattern()] *)
Definition platform_or_default (platform : option string) (system machine : string)
  : trace * option string :=
  if truthy platform then ([], platform)
  else get_platform_asset_pattern system machine.

(** [main] from [if not assets:] to the end of asset selection.
    [platform] is [args.platform]; [choice] is the value of [int(choice)]
    for the line read by [input], [None] when [int] raises [ValueError]. *)
Definition main_select_asset (platform : option string) (system machine : string)
    (assets : list asset) (choice : option Z) : trace * outcome asset :=
  match assets with
  | [] => (["No assets found in this release"], Return)
  | _ :: _ =>
      let (out, platform_pattern) := platform_or_default platform system machine in
      if truthy platform_pattern then
        match find_asset_for_platform assets platform_pattern with
        | Some a => (out, Continue a)
        | None =>
            (out ++ ["No asset found for platform pattern: "
                       +:+ default EmptyString platform_pattern;
                     "Available assets:"]
                 ++ map (fun a => "  - " +:+ name a) assets,
             Return)
        end
      else
        match assets with
        | [a] => (out, Continue a)
        | _ =>
            let out := out ++ ["Multiple assets available, please specify platform:"]
                           ++ imap (fun i a => "  " +:+ pretty i +:+ ": " +:+ name a) assets in
            match choice with
            | Some i =>
                match py_index assets i with
                | Ok a => (out, Continue a)
                | Raise _ => (out ++ ["Invalid choice"], Return)
                end
            | None => (out ++ ["Invalid choice"], Return)
            end
        end
  end.

Definition exn_str (e : exn) : string :=
  match e with
  | OSError what => what
  | ValueError => "ValueError"
  | IndexError => "IndexError"
  | Exception msg => msg
  end.

(** [main] from the end of the download to the point where
    [extract_archive] hands the file to a reader.  [filename] is the
    downloaded file and [output_dir] is [Path(args.output_dir)].  Inside the
    [try] a [temp_extract] left in the output directory is removed before
    the extractor is called; an exception there or in the extractor is
    reported and ends the process with status 1. *)
Definition main_after_download (no_extract : bool) (filename output_dir : path)
    (fs : node) : trace * outcome (archive_reader * node) :=
  if negb no_extract then
    if main_is_archive filename then
      let temp_extract_dir := output_dir ++ ["temp_extract"] in
      let failed (out : trace) (e : exn) : trace * outcome (archive_reader * node) :=
        (out ++ ["Error during extraction/installation: " +:+ exn_str e;
                 "You can manually extract and install the downloaded archive."],
         SysExit 1) in
      match (if exists_ fs temp_extract_dir then rmtree temp_extract_dir fs
             else Ok fs) with
      | Raise e => failed [] e
      | Ok fs' =>
          let (out, r) := extract_archive filename temp_extract_dir in
          match r with
          | Ok reader => (out, Continue (reader, fs'))
          | Raise e => failed out e
          end
      end
    else (["Downloaded file is not an archive: " +:+ path_str filename;
           "Manual installation may be required."], Return)
  else ([EmptyString; "To manually extract and install:";
         if String.eqb (lower (suffix filename)) ".zip"
         then "  unzip '" +:+ path_str filename +:+ "'"
         else "  tar -xzf '" +:+ path_str filename +:+ "'"], Return).

(* ===================================================================== *)
(** * Downloader: [download_file] and [progress_bar]                      *)
(* ===================================================================== *)

(** The state of the loop over [response.iter_content]: the bytes written
    to the file so far, the counter [downloaded], and the calls made to
    [progress_callback], oldest first. *)
Record download_state : Type := mk_download {
  written : list byte;
  downloaded : Z;
  progress_calls : list (Z * Z)
}.

(** One turn of the loop: an empty chunk is skipped. *)
Definition download_step (with_callback : bool) (total_size : Z)
    (st : download_state) (chunk : list byte) : download_state :=
  match chunk with
  | [] => st
  | _ :: _ =>
      let downloaded := downloaded st + Z.of_nat (length chunk) in
      mk_download (written st ++ chunk) downloaded
        (if with_callback && (0 <? total_size)
         then progress_calls st ++ [(downloaded, total_size)]
         else progress_calls st)
  end.

(** [total_size] is [int(response.headers.get('content-length', 0))],
    [chunks] are the chunks the response body arrives in, [with_callback]
    tells whether a [progress_callback] was passed.  Transport errors are
    not part of the model. *)
Definition download_file (total_size : Z) (chunks : list (list byte))
    (with_callback : bool) : download_state :=
  fold_left (download_step with_callback total_size) chunks (mk_download [] 0 []).

(** A cell of the bar: the full block or the dash. *)
Inductive cell : Type := Full | Dash.

(** What [progress_bar] prints: the line with the bar and the two counts
    (its percentage is floating-point text and is left out), and the line
    break that ends a finished bar. *)
Inductive progress_output : Type :=
  | BarLine (bar : list cell) (downloaded total : Z)
  | LineBreak.

(** [c * n] on strings: nothing for [n <= 0]. *)
Definition cells (c : cell) (n : Z) : list cell := repeat c (Z.to_nat n).

Definition progress_bar (downloaded total : Z) : list progress_output :=
  if total =? 0 then []
  else
    let bar_length := 50 in
    let filled_length := bar_length * downloaded / total in
    let bar := cells Full filled_length ++ cells Dash (bar_length - filled_length) in
    BarLine bar downloaded total
    :: (if downloaded =? total then [LineBreak] else []).

(** The download in [main], with [progress_bar] as the callback: the file
    and everything the callback prints. *)
Definition main_download (total_size : Z) (chunks : list (list byte))
  : list byte * list progress_output :=
  let st := download_file total_size chunks true in
  (written st, flat_map (fun c => progress_bar (fst c) (snd c)) (progress_calls st)).

(* ===================================================================== *)
(** * Path Configurator: the candidate files                              *)
(* ===================================================================== *)

(** The list [config_files] that [get_shell_config_file] builds from the
    value of SHELL. *)
Definition config_candidates (SHELL : string) : list string :=
  let shell := lower SHELL in
  if contains "zsh" shell then [".zshrc"; ".zprofile"]
  else if contains "bash" shell then [".bashrc"; ".bash_profile"; ".profile"]
  else [".zshrc"; ".bashrc"; ".bash_profile"; ".profile"].

(* ===================================================================== *)
(** * Sample data used by the examples                                   *)
(* ===================================================================== *)

Definition linux_zip : asset :=
  mk_asset "verus-x86-linux.zip" 52428800 "https://example.org/verus-x86-linux.zip".
Definition macos_zip : asset :=
  mk_asset "verus-arm64-macos.zip" 52428800 "https://example.org/verus-arm64-macos.zip".

(** The first bytes of an ELF executable and of a text file; modes are
    0o644 = 420, 0o744 = 484 and 0o755 = 493. *)
Definition elf_bytes : list byte := [x7f; x45; x4c; x46; x02; x01; x01; x00].
Definition text_bytes : list byte := [x23; x20; x52; x45; x41; x44; x4d; x45].

(** An installed tree under [/home/u/verus]: the ELF binaries [verus] and
    [z3], an ELF shared library under [lib], and a text file. *)
Definition fs_installed : node :=
  Dir 493
    [("home", Dir 493
       [("u", Dir 493
          [("verus", Dir 493
             [("verus", File 420 elf_bytes);
              ("z3", File 420 elf_bytes);
              ("lib", Dir 493 [("libz3.so", File 420 elf_bytes)]);
              ("LICENSE.txt", File 420 text_bytes)])])])].

(** An extracted release under [/out/temp_extract]: [verus.exe] at the root
    of the archive and [verus] one level down. *)
Definition fs_two_binaries : node :=
  Dir 493
    [("out", Dir 493
       [("temp_extract", Dir 493
          [("verus.exe", File 420 [x4d; x5a; x90; x00]);
           ("verus-x86-linux", Dir 493
              [("verus", File 420 elf_bytes);
               ("README.md", File 420 text_bytes)])])])].

(** The same extracted release next to an earlier installation under
    [/home/u/verus] that holds a file the release does not have. *)
Definition fs_old_install : node :=
  Dir 493
    [("out", Dir 493
       [("temp_extract", Dir 493
          [("verus.exe", File 420 [x4d; x5a; x90; x00]);
           ("verus-x86-linux", Dir 493
              [("verus", File 420 elf_bytes);
               ("README.md", File 420 text_bytes)])])]);
     ("home", Dir 493
       [("u", Dir 493
          [("verus", Dir 493 [("old-notes.txt", File 420 text_bytes)])])])].

(** An extracted tree whose root holds a directory called [verus] and no
    file called [verus] or [verus.exe] anywhere. *)
Definition fs_verus_directory : node :=
  Dir 493
    [("out", Dir 493
       [("temp_extract", Dir 493
          [("verus", Dir 493 [("README.md", File 420 text_bytes)])])])].

(* ===================================================================== *)
(** * Facts about the string primitives                                   *)
(* ===================================================================== *)

#[local] Arguments String.append !_ _ / : simpl nomatch.

Section StringFacts.

Lemma string_app_assoc (a b c : string) : (a +:+ b) +:+ c = a +:+ (b +:+ c).
Proof. induction a as [|x a IH]; simpl; [reflexivity | now rewrite IH]. Qed.

Lemma string_app_nil_r (a : string) : a +:+ "" = a.
Proof. induction a as [|x a IH]; simpl; [reflexivity | now rewrite IH]. Qed.

Lemma string_app_length (a b : string) :
  String.length (a +:+ b) = (String.length a + String.length b)%nat.
Proof. induction a as [|x a IH]; simpl; [reflexivity | now rewrite IH]. Qed.

Lemma prefix_spec (p s : string) :
  String.prefix p s = true <-> exists post, s = p +:+ post.
Proof.
  revert s. induction p as [|c p IH]; intros s; simpl.
  - destruct s; split; eauto.
  - destruct s as [|d s]; simpl.
    + split; [discriminate | intros [post H]; discriminate].
    + destruct (Ascii.ascii_dec c d) as [->|Hne].
      * rewrite IH. split; intros [post H]; exists post; congruence.
      * split; [discriminate | intros [post H]; congruence].
Qed.

Lemma contains_unfold (p s : string) :
  contains p s
  = String.prefix p s
    || match s with
       | EmptyString => false
       | String _ s' => contains p s'
       end.
Proof.
  destruct s; cbn [contains];
    match goal with
    | |- context [String.prefix ?a ?b] => destruct (String.prefix a b)
    end; reflexivity.
Qed.

Lemma contains_spec (p s : string) :
  contains p s = true <-> exists pre post, s = pre +:+ p +:+ post.
Proof.
  induction s as [|c s IH]; rewrite contains_unfold, orb_true_iff, prefix_spec.
  - split.
    + intros [[post E]|E]; [|discriminate]. exists "", post. exact E.
    + intros (pre & post & H). left.
      destruct pre; [|discriminate]. eauto.
  - rewrite IH. split.
    + intros [[post E]|(pre & post & ->)].
      * exists "", post. exact E.
      * exists (String c pre), post. reflexivity.
    + intros (pre & post & H). destruct pre as [|d pre]; simpl in H.
      * left. eauto.
      * right. injection H as _ ->. eauto.
Qed.

Lemma endswith_unfold (s p : string) :
  endswith s p
  = String.eqb s p
    || match s with
       | EmptyString => false
       | String _ s' => endswith s' p
       end.
Proof.
  destruct s; cbn [endswith];
    match goal with
    | |- context [String.eqb ?a ?b] => destruct (String.eqb a b)
    end; reflexivity.
Qed.

Lemma endswith_spec (s p : string) :
  endswith s p = true <-> exists pre, s = pre +:+ p.
Proof.
  induction s as [|c s IH]; rewrite endswith_unfold, orb_true_iff, String.eqb_eq.
  - split.
    + intros [<-|E]; [|discriminate]. exists "". reflexivity.
    + intros [pre H]. left. destruct pre; [exact H | discriminate].
  - rewrite IH. split.
    + intros [<-|[pre ->]].
      * exists "". reflexivity.
      * exists (String c pre). reflexivity.
    + intros [pre H]. destruct pre as [|d pre]; simpl in H.
      * left. exact H.
      * right. injection H as _ ->. eauto.
Qed.

Lemma contains_app (p a b : string) : contains p (a +:+ p +:+ b) = true.
Proof. apply contains_spec. eauto. Qed.

Lemma str_in_spec (x : string) (xs : list string) :
  str_in x xs = true <-> In x xs.
Proof.
  unfold str_in. rewrite existsb_exists. split.
  - intros (y & Hy & E). apply String.eqb_eq in E. now subst.
  - intros H. exists x. split; [assumption | apply String.eqb_refl].
Qed.

Lemma lower_app (a b : string) : lower (a +:+ b) = lower a +:+ lower b.
Proof. induction a as [|x a IH]; simpl; [reflexivity | now rewrite IH]. Qed.

Lemma lower_length (a : string) : String.length (lower a) = String.length a.
Proof. induction a as [|x a IH]; simpl; [reflexivity | now rewrite IH]. Qed.

Lemma app_inv_same_length (a b x y : string) :
  a +:+ x = b +:+ y -> String.length x = String.length y -> a = b /\ x = y.
Proof.
  revert b. induction a as [|c a IH]; intros [|d b] H L; simpl in H.
  - auto.
  - subst x. simpl in L. rewrite string_app_length in L. lia.
  - subst y. simpl in L. rewrite string_app_length in L. lia.
  - injection H as -> H. destruct (IH _ H L) as [-> ->]. auto.
Qed.

Lemma rfind_app (c : ascii) (a b : string) (i : nat) :
  rfind c b = Some i -> rfind c (a +:+ b) = Some (String.length a + i)%nat.
Proof.
  intros H. induction a as [|x a IH]; simpl; [exact H | now rewrite IH].
Qed.

Lemma rfind_lt (c : ascii) (s : string) (i : nat) :
  rfind c s = Some i -> (i < String.length s)%nat.
Proof.
  revert i. induction s as [|x s IH]; simpl; intros i H; [discriminate|].
  destruct (rfind c s) as [j|].
  - injection H as <-. specialize (IH j eq_refl). lia.
  - destruct (Ascii.eqb x c); [injection H as <-; lia | discriminate].
Qed.

Lemma substring_all (s : string) : substring 0 (String.length s) s = s.
Proof. induction s as [|x s IH]; simpl; [reflexivity | now rewrite IH]. Qed.

Lemma substring_app_r (a b : string) :
  substring (String.length a) (String.length b) (a +:+ b) = b.
Proof. induction a as [|x a IH]; simpl; [apply substring_all | exact IH]. Qed.

Lemma substring_split (i : nat) (s : string) :
  (i <= String.length s)%nat ->
  exists a, s = a +:+ substring i (String.length s - i) s /\ String.length a = i.
Proof.
  revert s. induction i as [|i IH]; intros s L.
  - exists "". rewrite Nat.sub_0_r, substring_all. auto.
  - destruct s as [|x s]; simpl in L; [lia|].
    destruct (IH s) as (a & E & La); [lia|].
    exists (String x a). simpl. split; [now rewrite <- E | now rewrite La].
Qed.

(** [lower] only moves letters: a dot stays a dot and nothing becomes one. *)
Lemma lower_ascii_dot (c : ascii) : lower_ascii c = "."%char <-> c = "."%char.
Proof.
  destruct c as [[] [] [] [] [] [] [] []]; vm_compute; split; congruence.
Qed.

Lemma app_inv_same_length_l (a b x y : string) :
  a +:+ x = b +:+ y -> String.length a = String.length b -> a = b /\ x = y.
Proof.
  revert b. induction a as [|c a IH]; intros [|d b] H L; simpl in *; try lia.
  - auto.
  - injection H as -> H. destruct (IH _ H) as [-> ->]; [lia | auto].
Qed.

Lemma lower_ascii_twice (c : ascii) : lower_ascii (lower_ascii c) = lower_ascii c.
Proof. destruct c as [[] [] [] [] [] [] [] []]; reflexivity. Qed.

Lemma lower_twice (s : string) : lower (lower s) = lower s.
Proof.
  induction s as [|c s IH]; simpl; [reflexivity|].
  now rewrite lower_ascii_twice, IH.
Qed.

(** Text found inside a lower-cased string is itself in lower case. *)
Lemma contains_lower (p s : string) : contains p (lower s) = true -> lower p = p.
Proof.
  intros (pre & post & E)%contains_spec.
  assert (lower pre +:+ lower p +:+ lower post = pre +:+ p +:+ post) as H
    by (now rewrite <- !lower_app, <- E, lower_twice).
  apply app_inv_same_length_l in H as [_ H]; [|apply lower_length].
  apply app_inv_same_length_l in H as [H _]; [exact H | apply lower_length].
Qed.

End StringFacts.

(* ===================================================================== *)
(** * Platform Resolver                                                   *)
(* ===================================================================== *)

Section PlatformResolver.

(** The nested dictionary and the documented table hold the same rows. *)
Lemma patterns_table (os arch tag : string) :
  (patterns !! os) ≫= (fun by_machine => by_machine !! arch) = Some tag
  <-> In (os, arch, tag) platform_table.
Proof.
  split.
  - unfold patterns.
    repeat (rewrite lookup_insert; case_decide; subst;
            [cbn [mbind option_bind];
             repeat (rewrite lookup_insert; case_decide; subst;
                     [intros [= <-]; cbn; tauto|]);
             rewrite lookup_empty; discriminate|]).
    rewrite lookup_empty. discriminate.
  - intros H. cbn in H.
    repeat (destruct H as [[= <- <- <-]|H]; [vm_compute; reflexivity|]).
    contradiction.
Qed.

Lemma resolve_known (system machine tag : string) :
  In (lower system, lower machine, tag) platform_table ->
  get_platform_asset_pattern system machine = ([], Some tag).
Proof.
  intros H. apply patterns_table in H. unfold get_platform_asset_pattern.
  destruct (patterns !! lower system) as [by_machine|]; [|discriminate].
  cbn [mbind option_bind] in H. now rewrite H.
Qed.

Lemma resolve_unknown (system machine : string) :
  (forall tag, ~ In (lower system, lower machine, tag) platform_table) ->
  get_platform_asset_pattern system machine
  = (["Warning: Unknown platform " +:+ lower system +:+ "-" +:+ lower machine], None).
Proof.
  intros H. unfold get_platform_asset_pattern.
  destruct (patterns !! lower system) as [by_machine|] eqn:E1; [|reflexivity].
  destruct (by_machine !! lower machine) as [tag|] eqn:E2; [|reflexivity].
  exfalso. apply (H tag), patterns_table. rewrite E1. exact E2.
Qed.

(** C8: platform resolution is a total function of the (OS family,
    architecture) pair, read in lower case.  For every row of the
    documented table it returns the row's tag and prints nothing; for
    every pair that is in no row it returns no tag, prints the warning, and
    raises nothing. *)
Theorem platform_resolution_by_table (system machine : string) :
  (forall os arch tag,
      In (os, arch, tag) platform_table ->
      lower system = os -> lower machine = arch ->
      get_platform_asset_pattern system machine = ([], Some tag))
  /\ ((forall tag, ~ In (lower system, lower machine, tag) platform_table) ->
      get_platform_asset_pattern system machine
      = (["Warning: Unknown platform " +:+ lower system +:+ "-" +:+ lower machine],
         None)).
Proof.
  split.
  - intros os arch tag H <- <-. now apply resolve_known.
  - apply resolve_unknown.
Qed.

Lemma platform_resolution_by_table_witness :
  get_platform_asset_pattern "Darwin" "ARM64" = ([], Some "arm64-macos")
  /\ get_platform_asset_pattern "FreeBSD" "amd64"
     = (["Warning: Unknown platform freebsd-amd64"], None).
Proof.
  split.
  - apply (proj1 (platform_resolution_by_table "Darwin" "ARM64")
             "darwin" "arm64" "arm64-macos");
      [simpl; tauto | reflexivity | reflexivity].
  - apply (proj2 (platform_resolution_by_table "FreeBSD" "amd64")).
    intros tag H. simpl in H.
    repeat (destruct H as [H|H]; [discriminate H|]). exact H.
Defined.

End PlatformResolver.

(* ===================================================================== *)
(** * Asset Selector                                                      *)
(* ===================================================================== *)

Section AssetSelector.

(** With a tag that is already in lower case the selector is the
    case-insensitive first match. *)
Lemma find_asset_lower_tag (assets : list asset) (tag : string) :
  tag <> "" -> lower tag = tag ->
  find_asset_for_platform assets (Some tag)
  = find (fun a => contains (lower tag) (lower (name a))) assets.
Proof.
  intros Hne Hl. unfold find_asset_for_platform.
  destruct tag; [congruence|]. cbn [truthy negb default]. now rewrite Hl.
Qed.

(** A tag that is not in lower case matches no asset at all. *)
Lemma find_asset_upper_tag (assets : list asset) (tag : string) :
  lower tag <> tag -> find_asset_for_platform assets (Some tag) = None.
Proof.
  intros H. unfold find_asset_for_platform.
  destruct (negb (truthy (Some tag))); [reflexivity|]. cbn [default from_option id].
  induction assets as [|a assets IH]; simpl; [reflexivity|].
  destruct (contains tag (lower (name a))) eqn:C; [|exact IH].
  apply contains_lower in C. contradiction.
Qed.

(** C3: the selector lowers the asset name but not the tag, so a tag with
    an upper-case letter matches no asset, although the first asset's name
    contains it when letter case is ignored. *)
Theorem find_asset_mixed_case_tag :
  find_asset_for_platform [linux_zip; macos_zip] (Some "X86-Linux") = None
  /\ contains (lower "X86-Linux") (lower (name linux_zip)) = true
  /\ find_asset_for_platform [linux_zip; macos_zip] (Some "x86-linux")
     = Some linux_zip
  /\ find_asset_for_platform [linux_zip; macos_zip] (Some "bogus-tag") = None.
Proof. vm_compute. auto. Qed.

(** C9: with no tag, or with the empty tag, the selector returns no asset,
    whatever the assets are; yet the empty string is a substring of every
    name, so only the guard keeps it from matching the first asset. *)
Theorem find_asset_without_tag (assets : list asset) :
  find_asset_for_platform assets None = None
  /\ find_asset_for_platform assets (Some "") = None
  /\ (forall a, contains "" (lower (name a)) = true).
Proof.
  repeat split. intros a. apply contains_spec. exists "", (lower (name a)).
  reflexivity.
Qed.

End AssetSelector.

(* ===================================================================== *)
(** * Archive Extractor                                                   *)
(* ===================================================================== *)

Section ArchiveExtractor.

(** A name "stem + extension" with a non-empty stem and an extension that is
    one dot followed by dot-free text has that extension as its suffix. *)
Lemma suffix_stem_ext (p : path) (stem ext : string) :
  path_name p = stem +:+ ext -> stem <> "" ->
  rfind "." ext = Some O -> (2 <= String.length ext)%nat ->
  suffix p = ext.
Proof.
  intros E Hs Hdot Hlen. unfold suffix. rewrite E.
  rewrite (rfind_app _ stem _ _ Hdot), Nat.add_0_r, string_app_length.
  assert (0 < String.length stem)%nat by (destruct stem; simpl; [congruence | lia]).
  replace (String.length stem + String.length ext - String.length stem)%nat
    with (String.length ext) by lia.
  rewrite substring_app_r.
  destruct (Nat.ltb_spec 0 (String.length stem)); [|lia].
  destruct (Nat.ltb_spec (String.length stem)
              (String.length stem + String.length ext - 1)); [reflexivity | lia].
Qed.

(** A non-empty suffix splits the name into a non-empty stem and itself. *)
Lemma suffix_inv (p : path) :
  suffix p <> "" -> exists stem, path_name p = stem +:+ suffix p /\ stem <> "".
Proof.
  unfold suffix. destruct (rfind "." (path_name p)) as [i|] eqn:R; [|congruence].
  destruct (Nat.ltb_spec 0 i); [|simpl; congruence].
  destruct (Nat.ltb_spec i (String.length (path_name p) - 1)); [|simpl; congruence].
  simpl. intros _.
  destruct (substring_split i (path_name p)) as (a & E & La); [lia|].
  exists a. split; [exact E|]. intros ->. simpl in La. lia.
Qed.

Lemma lower_not_dot (c : ascii) : lower_ascii c <> "."%char -> Ascii.eqb c "." = false.
Proof.
  intros H. apply Ascii.eqb_neq. intros ->. apply H. reflexivity.
Qed.

(** Any spelling of [.zip] is a dot followed by three dot-free characters. *)
Lemma zip_spelling (ext : string) :
  lower ext = ".zip" -> rfind "." ext = Some O /\ String.length ext = 4%nat.
Proof.
  destruct ext as [|c0 [|c1 [|c2 [|c3 [|c4 ext]]]]]; try discriminate.
  cbn [lower]. intros [= H0 H1 H2 H3].
  apply (proj1 (lower_ascii_dot c0)) in H0. subst c0.
  cbn [rfind String.length].
  rewrite (lower_not_dot c1), (lower_not_dot c2), (lower_not_dot c3)
    by (rewrite ?H1, ?H2, ?H3; discriminate).
  auto.
Qed.

Lemma zip_suffix_iff (p : path) :
  lower (suffix p) = ".zip"
  <-> exists stem ext, path_name p = stem +:+ ext /\ stem <> "" /\ lower ext = ".zip".
Proof.
  split.
  - intros H. destruct (suffix_inv p) as (stem & E & Hs).
    + intros E. rewrite E in H. discriminate.
    + exists stem, (suffix p). auto.
  - intros (stem & ext & E & Hs & L).
    destruct (zip_spelling _ L) as [Hdot Hlen].
    rewrite (suffix_stem_ext p stem ext); auto. lia.
Qed.

(** The lower-cased suffix of a name ending in [.tar.gz] or [.tgz] (in this
    spelling or in capitals) is not [.zip]. *)
Lemma tar_suffix_not_zip (p : path) (pre ext : string) :
  path_name p = pre +:+ ext ->
  In ext [".tar.gz"; ".tgz"; ".TAR.GZ"; ".TGZ"] ->
  lower (suffix p) <> ".zip".
Proof.
  intros E Hin Hz. apply zip_suffix_iff in Hz as (stem & z & E' & Hs & L).
  destruct (zip_spelling _ L) as [_ Hlen].
  destruct z as [|c0 [|c1 [|c2 [|c3 [|c4 z]]]]]; try discriminate.
  cbn [lower] in L. injection L as L0 L1 L2 L3.
  rewrite E in E'. symmetry in E'. simpl in Hin.
  assert (forall a b, a +:+ String c0 (String c1 (String c2 (String c3 ""))) = b ->
                      forall b' x0 x1 x2 x3,
                        b = b' +:+ String x0 (String x1 (String x2 (String x3 ""))) ->
                        lower_ascii x0 = "."%char /\ lower_ascii x1 = "z"%char) as Hend.
  { intros a b Ha b' x0 x1 x2 x3 Hb. rewrite Hb in Ha.
    apply app_inv_same_length in Ha as [_ Ha]; [|reflexivity].
    injection Ha as -> -> -> ->. auto. }
  destruct Hin as [<-|[<-|[<-|[<-|[]]]]].
  - destruct (Hend _ _ E' (pre +:+ ".ta") "r" "." "g" "z")%char as [? _];
      [now rewrite string_app_assoc | discriminate].
  - destruct (Hend _ _ E' pre "." "t" "g" "z")%char as [_ ?];
      [reflexivity | discriminate].
  - destruct (Hend _ _ E' (pre +:+ ".TA") "R" "." "G" "Z")%char as [? _];
      [now rewrite string_app_assoc | discriminate].
  - destruct (Hend _ _ E' pre "." "T" "G" "Z")%char as [_ ?];
      [reflexivity | discriminate].
Qed.

Lemma dispatch_zip (archive_path extract_to : path) :
  (exists stem ext, path_name archive_path = stem +:+ ext /\ stem <> ""
                    /\ lower ext = ".zip") ->
  snd (extract_archive archive_path extract_to) = Ok ZipFile_extractall.
Proof.
  intros H. apply zip_suffix_iff in H. unfold extract_archive.
  rewrite H. reflexivity.
Qed.

Lemma dispatch_tar (archive_path extract_to : path) (pre : string) :
  path_name archive_path = pre +:+ ".tar.gz" \/ path_name archive_path = pre +:+ ".tgz" ->
  snd (extract_archive archive_path extract_to) = Ok TarGz_extractall.
Proof.
  intros H. unfold extract_archive.
  destruct (String.eqb_spec (lower (suffix archive_path)) ".zip") as [Hz|_].
  - exfalso. destruct H as [H|H];
      eapply tar_suffix_not_zip; eauto; simpl; auto.
  - assert (endswith_any (path_name archive_path) [".tar.gz"; ".tgz"] = true) as ->.
    { unfold endswith_any. simpl. apply orb_true_iff.
      destruct H as [H|H]; [left | right; apply orb_true_iff; left];
        apply endswith_spec; eauto. }
    reflexivity.
Qed.

Lemma dispatch_unsupported (archive_path extract_to : path) :
  lower (suffix archive_path) <> ".zip" ->
  (forall pre, path_name archive_path <> pre +:+ ".tar.gz") ->
  (forall pre, path_name archive_path <> pre +:+ ".tgz") ->
  extract_archive archive_path extract_to
  = (["Extracting " +:+ path_name archive_path +:+ "..."],
     Raise (Exception ("Unsupported archive format: " +:+ suffix archive_path))).
Proof.
  intros Hz H1 H2. unfold extract_archive.
  destruct (String.eqb_spec (lower (suffix archive_path)) ".zip"); [contradiction|].
  assert (endswith_any (path_name archive_path) [".tar.gz"; ".tgz"] = false) as ->.
  { unfold endswith_any. simpl. rewrite orb_false_r. apply orb_false_iff.
    split; apply not_true_is_false; intros [pre E]%endswith_spec.
    - exact (H1 _ E).
    - exact (H2 _ E). }
  reflexivity.
Qed.

Lemma capitals_not_tar (nm pre : string) :
  nm = pre +:+ ".TAR.GZ" \/ nm = pre +:+ ".TGZ" ->
  (forall pre', nm <> pre' +:+ ".tar.gz") /\ (forall pre', nm <> pre' +:+ ".tgz").
Proof.
  intros [->| ->]; split; intros pre' E.
  - apply app_inv_same_length in E as [_ E]; [discriminate E | reflexivity].
  - change (pre +:+ ".TAR.GZ") with (pre +:+ ".TA" +:+ "R.GZ") in E.
    rewrite <- string_app_assoc in E.
    apply app_inv_same_length in E as [_ E]; [discriminate E | reflexivity].
  - change (pre' +:+ ".tar.gz") with (pre' +:+ ".ta" +:+ "r.gz") in E.
    rewrite <- string_app_assoc in E.
    apply app_inv_same_length in E as [_ E]; [discriminate E | reflexivity].
  - apply app_inv_same_length in E as [_ E]; [discriminate E | reflexivity].
Qed.

Lemma not_zip_suffix (archive_path : path) :
  ~ (exists stem ext, path_name archive_path = stem +:+ ext /\ stem <> ""
                      /\ lower ext = ".zip") ->
  lower (suffix archive_path) <> ".zip".
Proof. intros H Hz. apply H, zip_suffix_iff, Hz. Qed.

(** In [main] the extractor is only called on a name that passes
    [main_is_archive], which is the extractor's own test: the unsupported
    format is never reached from there, and a file that is no archive ends
    the run with status 0. *)
Lemma main_is_archive_dispatch (filename extract_to : path) :
  main_is_archive filename = true
  <-> exists reader, snd (extract_archive filename extract_to) = Ok reader.
Proof.
  unfold main_is_archive, extract_archive, str_in. cbn [existsb].
  rewrite orb_false_r, (String.eqb_sym (lower (suffix filename)) ".zip").
  destruct (String.eqb ".zip" (lower (suffix filename))); cbn [orb snd].
  - split; eauto.
  - destruct (endswith_any (path_name filename) [".tar.gz"; ".tgz"]); cbn [snd].
    + split; eauto.
    + split; [discriminate | intros [r H]; discriminate H].
Qed.

Lemma main_after_download_not_archive (no_extract : bool) (filename output_dir : path)
    (fs : node) :
  main_is_archive filename = false ->
  snd (main_after_download no_extract filename output_dir fs) = Return.
Proof.
  intros H. unfold main_after_download. rewrite H. now destruct (negb no_extract).
Qed.

(** C6, as stated, fails twice.  The path [/downloads/.zip] ends in [.zip],
    yet it is not routed to zip extraction but rejected.  And the download
    [/downloads/foo.rar] is not fatal to the run: [main] tests the name
    itself, never calls the extractor on it, reports that the file is not
    an archive and returns, so the process ends with status 0. *)
Lemma extract_archive_bare_zip_rejected :
  endswith (path_str ["downloads"; ".zip"]) ".zip" = true
  /\ snd (extract_archive ["downloads"; ".zip"] ["downloads"; "temp_extract"])
     = Raise (Exception "Unsupported archive format: ")
  /\ snd (extract_archive ["downloads"; ".zip"] ["downloads"; "temp_extract"])
     <> Ok ZipFile_extractall
  /\ main_after_download false ["downloads"; "foo.rar"] ["downloads"]
       (Dir 493 [("downloads", Dir 493 [("foo.rar", File 420 text_bytes)])])
     = (["Downloaded file is not an archive: /downloads/foo.rar";
         "Manual installation may be required."], Return)
  /\ exit_status
       (snd (main_after_download false ["downloads"; "foo.rar"] ["downloads"]
               (Dir 493 [("downloads", Dir 493 [("foo.rar", File 420 text_bytes)])])))
     = Some 0.
Proof. vm_compute. repeat split; discriminate. Qed.

(** C6 (amended): extraction dispatches on the name of the archive alone.  A
    name made of a non-empty stem and [.zip] in any letter case goes to zip
    extraction; a name ending in [.tar.gz] or [.tgz] goes to gzip-tar
    extraction; every other path is rejected: [extract_archive] prints the
    "Extracting" line and raises the unsupported-format exception without
    calling a reader.  The rejection is not fatal to a run: [main] makes the
    same test on the name first and, for a name that fails it, returns
    without calling the extractor, so the process ends with status 0. *)
Theorem extract_archive_by_name (archive_path extract_to : path) :
  let nm := path_name archive_path in
  ((exists stem ext, nm = stem +:+ ext /\ stem <> "" /\ lower ext = ".zip") ->
   snd (extract_archive archive_path extract_to) = Ok ZipFile_extractall)
  /\ ((exists pre, nm = pre +:+ ".tar.gz" \/ nm = pre +:+ ".tgz") ->
      snd (extract_archive archive_path extract_to) = Ok TarGz_extractall)
  /\ (~ (exists stem ext, nm = stem +:+ ext /\ stem <> "" /\ lower ext = ".zip") ->
      ~ (exists pre, nm = pre +:+ ".tar.gz" \/ nm = pre +:+ ".tgz") ->
      extract_archive archive_path extract_to
      = (["Extracting " +:+ nm +:+ "..."],
         Raise (Exception ("Unsupported archive format: " +:+ suffix archive_path)))
      /\ main_is_archive archive_path = false
      /\ forall no_extract output_dir fs,
           snd (main_after_download no_extract archive_path output_dir fs) = Return
           /\ exit_status
                (snd (main_after_download no_extract archive_path output_dir fs))
              = Some 0).
Proof.
  cbv zeta. split; [|split].
  - apply dispatch_zip.
  - intros [pre H]. now apply dispatch_tar with pre.
  - intros Hz Ht.
    assert (extract_archive archive_path extract_to
            = (["Extracting " +:+ path_name archive_path +:+ "..."],
               Raise (Exception ("Unsupported archive format: "
                                 +:+ suffix archive_path)))) as E.
    { apply dispatch_unsupported.
      - now apply not_zip_suffix.
      - intros pre H. apply Ht. eauto.
      - intros pre H. apply Ht. eauto. }
    assert (main_is_archive archive_path = false) as Hno.
    { destruct (main_is_archive archive_path) eqn:Ha; [|reflexivity].
      apply (main_is_archive_dispatch archive_path extract_to) in Ha as [r Hr].
      rewrite E in Hr. discriminate Hr. }
    split; [exact E|]. split; [exact Hno|]. intros no_extract output_dir fs.
    rewrite (main_after_download_not_archive _ _ _ _ Hno). split; reflexivity.
Qed.

Lemma extract_archive_by_name_witness :
  snd (extract_archive ["downloads"; "foo.zip"] ["tmp"]) = Ok ZipFile_extractall
  /\ snd (extract_archive ["downloads"; "foo.tar.gz"] ["tmp"]) = Ok TarGz_extractall
  /\ (extract_archive ["downloads"; "foo.rar"] ["tmp"]
      = (["Extracting foo.rar..."],
         Raise (Exception "Unsupported archive format: .rar"))
      /\ main_is_archive ["downloads"; "foo.rar"] = false
      /\ forall no_extract output_dir fs,
           snd (main_after_download no_extract ["downloads"; "foo.rar"] output_dir fs)
           = Return
           /\ exit_status
                (snd (main_after_download no_extract ["downloads"; "foo.rar"]
                        output_dir fs))
              = Some 0).
Proof.
  split; [|split].
  - apply (proj1 (extract_archive_by_name ["downloads"; "foo.zip"] ["tmp"])).
    exists "foo", ".zip". split; [reflexivity | split; [discriminate | reflexivity]].
  - apply (proj1 (proj2 (extract_archive_by_name ["downloads"; "foo.tar.gz"] ["tmp"]))).
    exists "foo". left. reflexivity.
  - apply (proj2 (proj2 (extract_archive_by_name ["downloads"; "foo.rar"] ["tmp"]))).
    + intros H. apply zip_suffix_iff in H. vm_compute in H. discriminate H.
    + intros [pre [H|H]];
        (assert (endswith "foo.rar" ".tar.gz" || endswith "foo.rar" ".tgz" = true) as C
           by (apply orb_true_iff; rewrite !endswith_spec; eauto));
        vm_compute in C; discriminate C.
Defined.

(** C10, as stated, fails: the name [.ZIP] ends in a spelling of the zip
    suffix, yet it is rejected. *)
Lemma extract_archive_bare_capital_zip_rejected :
  endswith (path_name [".ZIP"]) ".ZIP" = true
  /\ lower ".ZIP" = ".zip"
  /\ snd (extract_archive [".ZIP"] ["temp_extract"])
     = Raise (Exception "Unsupported archive format: ").
Proof. vm_compute. auto. Qed.

(** C10 (amended): the zip test ignores letter case and the tar test does
    not.  A name made of a non-empty stem and the zip suffix in any letter
    case goes to zip extraction, while a name ending in [.TAR.GZ] or [.TGZ]
    in capitals is rejected as an unsupported format. *)
Theorem archive_dispatch_letter_case (archive_path extract_to : path) :
  let nm := path_name archive_path in
  (forall stem ext, nm = stem +:+ ext -> stem <> "" -> lower ext = ".zip" ->
     snd (extract_archive archive_path extract_to) = Ok ZipFile_extractall)
  /\ (forall pre, nm = pre +:+ ".TAR.GZ" \/ nm = pre +:+ ".TGZ" ->
        snd (extract_archive archive_path extract_to)
        = Raise (Exception ("Unsupported archive format: " +:+ suffix archive_path))).
Proof.
  cbv zeta. split.
  - intros stem ext E Hs L. apply dispatch_zip. eauto.
  - intros pre H. destruct (capitals_not_tar _ _ H) as [H1 H2].
    rewrite dispatch_unsupported; [reflexivity | | exact H1 | exact H2].
    destruct H as [H|H]; eapply tar_suffix_not_zip; eauto; simpl; auto.
Qed.

Lemma archive_dispatch_letter_case_witness :
  snd (extract_archive ["downloads"; "verus.ZiP"] ["tmp"]) = Ok ZipFile_extractall
  /\ snd (extract_archive ["downloads"; "verus.TAR.GZ"] ["tmp"])
     = Raise (Exception "Unsupported archive format: .GZ")
  /\ snd (extract_archive ["downloads"; "verus.TGZ"] ["tmp"])
     = Raise (Exception "Unsupported archive format: .TGZ").
Proof.
  split; [|split].
  - apply (proj1 (archive_dispatch_letter_case ["downloads"; "verus.ZiP"] ["tmp"])
             "verus" ".ZiP"); [reflexivity | discriminate | reflexivity].
  - apply (proj2 (archive_dispatch_letter_case ["downloads"; "verus.TAR.GZ"] ["tmp"])
             "verus"). left. reflexivity.
  - apply (proj2 (archive_dispatch_letter_case ["downloads"; "verus.TGZ"] ["tmp"])
             "verus"). right. reflexivity.
Defined.

End ArchiveExtractor.

(* ===================================================================== *)
(** * Path Configurator                                                   *)
(* ===================================================================== *)

Section PathConfigurator.

Variables (SHELL : string) (home install_dir : path).

Lemma find_default {A : Type} (P : A -> bool) (d : A) (l : list A) :
  (forall x, In x l -> P x = true -> x = d) -> default d (find P l) = d.
Proof.
  intros H. destruct (find P l) as [x|] eqn:E; [|reflexivity].
  apply find_some in E as [Hin HP]. simpl. auto.
Qed.

Lemma find_ext_in {A : Type} (P Q : A -> bool) (l : list A) :
  (forall x, In x l -> P x = Q x) -> find P l = find Q l.
Proof.
  induction l as [|x l IH]; intros H; simpl; [reflexivity|].
  rewrite (H x) by (left; reflexivity). destruct (Q x); [reflexivity|].
  apply IH. intros y Hy. apply H. now right.
Qed.

(** Writing to the chosen file does not change which file is chosen. *)
Lemma get_shell_config_file_insert (files : gmap string string) (text : string) :
  get_shell_config_file SHELL
    (<[get_shell_config_file SHELL files := text]> files)
  = get_shell_config_file SHELL files.
Proof.
  unfold get_shell_config_file.
  set (config_files := if contains "zsh" (lower SHELL) then _ else _).
  destruct (find (fun f => bool_decide (is_Some (files !! f))) config_files)
    as [f|] eqn:E; cbn [default].
  - apply find_some in E as HE. destruct HE as [_ Hf].
    apply bool_decide_eq_true in Hf.
    erewrite find_ext_in; [rewrite E; reflexivity|].
    intros g _. apply bool_decide_ext. rewrite lookup_insert.
    case_decide; [subst; split; eauto | reflexivity].
  - apply find_default. intros g Hg Hs. apply bool_decide_eq_true in Hs.
    rewrite lookup_insert in Hs. case_decide; [congruence|].
    eapply find_none in E; [|exact Hg]. apply bool_decide_eq_false in E.
    contradiction.
Qed.

(** The appended block mentions the install path. *)
Lemma path_block_contains (content : string) :
  contains (path_str install_dir) (content +:+ path_block install_dir) = true.
Proof.
  apply contains_spec. unfold path_block, path_line.
  exists (content +:+ nl +:+ "# Verus installation" +:+ nl +:+ "export PATH=" +:+ dquote),
         (":$PATH" +:+ dquote +:+ "  # Added by Verus installer" +:+ nl).
  now rewrite !string_app_assoc.
Qed.

(** Text without a carriage return is read as it was written, whatever
    follows it. *)
Lemma universal_newlines_plain (s r : string) :
  has_char CR s = false ->
  universal_newlines false (s +:+ r) = s +:+ universal_newlines false r.
Proof.
  induction s as [|c s IH]; intros H; [reflexivity|].
  cbn [has_char] in H. apply orb_false_iff in H as [Hc Hs].
  cbn [String.append universal_newlines]. rewrite Hc, andb_false_r.
  now rewrite (IH Hs).
Qed.

(** Reading starts afresh after a character that is no line break. *)
Lemma universal_newlines_app (after_cr : bool) (x : string) (c : ascii) (y : string) :
  Ascii.eqb c CR = false -> Ascii.eqb c LF = false ->
  universal_newlines after_cr (x +:+ String c y)
  = universal_newlines after_cr x +:+ String c (universal_newlines false y).
Proof.
  intros H1 H2. revert after_cr. induction x as [|d x IH]; intros after_cr.
  - cbn [String.append universal_newlines]. now rewrite H1, H2.
  - cbn [String.append universal_newlines].
    destruct (Ascii.eqb d CR); [cbn [String.append]; now rewrite IH|].
    destruct (Ascii.eqb d LF && after_cr); [apply IH|].
    cbn [String.append]. now rewrite IH.
Qed.

(** When the install path holds no carriage return, the appended block is
    read back with the path in it. *)
Lemma path_block_read (content : string) :
  has_char CR (path_str install_dir) = false ->
  contains (path_str install_dir)
    (read_text (content +:+ path_block install_dir)) = true.
Proof.
  intros H. unfold read_text.
  assert (content +:+ path_block install_dir
          = (content +:+ nl +:+ "# Verus installation" +:+ nl +:+ "export PATH=")
            +:+ String (ascii_of_nat 34)
                  (path_str install_dir
                   +:+ ":$PATH" +:+ dquote +:+ "  # Added by Verus installer" +:+ nl))
    as ->.
  { unfold path_block, path_line, dquote. rewrite !string_app_assoc. reflexivity. }
  rewrite universal_newlines_app by reflexivity.
  rewrite (universal_newlines_plain _ _ H).
  apply contains_spec.
  exists (universal_newlines false
            (content +:+ nl +:+ "# Verus installation" +:+ nl +:+ "export PATH=")
          +:+ dquote),
         (universal_newlines false
            (":$PATH" +:+ dquote +:+ "  # Added by Verus installer" +:+ nl)).
  rewrite string_app_assoc. reflexivity.
Qed.

(** A text that is read to begin with [s], where [s] holds no line break,
    begins with [s]. *)
Lemma universal_newlines_prefix (s t b : string) :
  has_char CR s = false -> has_char LF s = false ->
  universal_newlines false t = s +:+ b -> exists b', t = s +:+ b'.
Proof.
  revert t. induction s as [|d s IH]; intros t Hcr Hlf H; [now exists t|].
  cbn [has_char] in Hcr, Hlf.
  apply orb_false_iff in Hcr as [Hd1 Hcr]. apply orb_false_iff in Hlf as [Hd2 Hlf].
  destruct t as [|e t]; [discriminate|]. cbn [universal_newlines String.append] in H.
  destruct (Ascii.eqb e CR).
  - injection H as <- _. discriminate Hd2.
  - rewrite andb_false_r in H. injection H as -> H.
    destruct (IH t Hcr Hlf H) as [b' ->]. now exists b'.
Qed.

(** An occurrence of [s] in what is read, where [s] holds no line break, is
    an occurrence in what is stored. *)
Lemma read_text_contains (s t : string) :
  has_char CR s = false -> has_char LF s = false ->
  contains s (read_text t) = true -> contains s t = true.
Proof.
  intros Hcr Hlf (a & b & H)%contains_spec. apply contains_spec.
  unfold read_text in H. revert H. generalize false as after_cr. revert a.
  induction t as [|c t IH]; intros a after_cr H.
  - cbn [universal_newlines] in H. destruct a; [|discriminate].
    destruct s; [|discriminate]. now exists "", "".
  - destruct s as [|d s]; [now exists "", (String c t)|].
    cbn [has_char] in Hcr, Hlf.
    apply orb_false_iff in Hcr as [Hd1 Hcr']. apply orb_false_iff in Hlf as [Hd2 Hlf'].
    cbn [universal_newlines] in H.
    assert (forall a0 f, universal_newlines f t = a0 +:+ String d s +:+ b ->
              exists a' b', String c t = a' +:+ String d s +:+ b') as Hrest.
    { intros a0 f H0. destruct (IH a0 f H0) as (a' & b' & ->).
      now exists (String c a'), b'. }
    destruct (Ascii.eqb c CR).
    + destruct a as [|a0 a]; cbn [String.append] in H.
      * injection H as <- _. discriminate Hd2.
      * injection H as _ H. eauto.
    + destruct (Ascii.eqb c LF && after_cr); [eauto|].
      destruct a as [|a0 a]; cbn [String.append] in H.
      * injection H as -> H.
        destruct (universal_newlines_prefix s t b Hcr' Hlf' H) as [b' ->].
        now exists "", b'.
      * injection H as _ H. eauto.
Qed.

(** A second call for a path without a carriage return finds it. *)
Lemma update_path_again (files : gmap string string) :
  has_char CR (path_str install_dir) = false ->
  let first := update_path_in_shell_config SHELL home install_dir files in
  update_path_in_shell_config SHELL home install_dir (snd (fst first))
  = (["PATH already configured in "
        +:+ path_str (home ++ [get_shell_config_file SHELL files])],
     snd (fst first), get_shell_config_file SHELL files).
Proof.
  intros Hcr. cbv zeta.
  destruct (update_path_in_shell_config SHELL home install_dir files)
    as [[out1 files1] cf1] eqn:U.
  cbn [fst snd]. unfold update_path_in_shell_config in *.
  destruct (files !! get_shell_config_file SHELL files) as [content|] eqn:E.
  - destruct (contains (path_str install_dir) (read_text content)) eqn:C;
      injection U as <- <- <-.
    + now rewrite E, C.
    + rewrite get_shell_config_file_insert, lookup_insert_eq, path_block_read by exact Hcr.
      reflexivity.
  - injection U as <- <- <-.
    rewrite get_shell_config_file_insert, lookup_insert_eq.
    change (path_block install_dir) with ("" +:+ path_block install_dir) at 1.
    rewrite path_block_read by exact Hcr. reflexivity.
Qed.

End PathConfigurator.

(** C5: the configurator looks for the install path in the text it reads
    from the chosen file, and reading turns every carriage return into a
    line feed.  An install path that holds a carriage return is therefore
    never found again: the first call appends the block, and so does the
    second, which leaves the export line in the file twice.  For the same
    call with a path without a carriage return the second call reports the
    file as configured and appends nothing. *)
Theorem update_path_carriage_return :
  let home := ["home"; "u"] in
  let files : gmap string string := {[ ".bashrc" := "alias ll=ls" ]} in
  let install_dir := ["home"; "u"; "ver" +:+ String CR "us"] in
  let first := update_path_in_shell_config "/bin/bash" home install_dir files in
  let second :=
    update_path_in_shell_config "/bin/bash" home install_dir (snd (fst first)) in
  let plain_dir := ["home"; "u"; "verus"] in
  let plain_first := update_path_in_shell_config "/bin/bash" home plain_dir files in
  let plain_second :=
    update_path_in_shell_config "/bin/bash" home plain_dir (snd (fst plain_first)) in
  snd (fst first) !! ".bashrc" = Some ("alias ll=ls" +:+ path_block install_dir)
  /\ fst (fst second) = ["Adding Verus to PATH in /home/u/.bashrc"]
  /\ snd (fst second) !! ".bashrc"
     = Some ("alias ll=ls" +:+ path_block install_dir +:+ path_block install_dir)
  /\ fst (fst plain_second) = ["PATH already configured in /home/u/.bashrc"]
  /\ snd (fst plain_second) !! ".bashrc"
     = Some ("alias ll=ls" +:+ path_block plain_dir).
Proof. vm_compute. repeat split; reflexivity. Qed.

(* ===================================================================== *)
(** * [main]: how a failed selection ends                                 *)
(* ===================================================================== *)

Section SelectionFailures.

Variables (platform : option string) (system machine : string).

Lemma find_asset_none (assets : list asset) (tag : option string) :
  (forall a, In a assets ->
     contains (default EmptyString tag) (lower (name a)) = false) ->
  find_asset_for_platform assets tag = None.
Proof.
  intros H. unfold find_asset_for_platform.
  destruct (negb (truthy tag)); [reflexivity|].
  induction assets as [|a assets IH]; simpl; [reflexivity|].
  rewrite (H a) by (left; reflexivity). apply IH. intros b Hb. apply H. now right.
Qed.

Lemma py_index_out_of_range (assets : list asset) (i : Z) :
  i < - Z.of_nat (length assets) \/ Z.of_nat (length assets) <= i ->
  py_index assets i = Raise IndexError.
Proof.
  intros H. unfold py_index.
  destruct (Z.ltb_spec i 0).
  - destruct (Z.ltb_spec (i + Z.of_nat (length assets)) 0); [reflexivity | lia].
  - destruct (Z.ltb_spec i 0); [lia|].
    destruct (Z.leb_spec (Z.of_nat (length assets)) i); [reflexivity | lia].
Qed.

(** C7, as stated, fails: with two assets, no tag and the answer 7 (or an
    answer that is no integer) [main] prints "Invalid choice" and returns;
    the process ends with status 0, not with an error status. *)
Lemma invalid_choice_exits_zero :
  main_select_asset None "FreeBSD" "amd64" [linux_zip; macos_zip] (Some 7)
  = (["Warning: Unknown platform freebsd-amd64";
      "Multiple assets available, please specify platform:";
      "  0: verus-x86-linux.zip"; "  1: verus-arm64-macos.zip";
      "Invalid choice"], Return)
  /\ exit_status (snd (main_select_asset None "FreeBSD" "amd64"
                         [linux_zip; macos_zip] (Some 7))) = Some 0
  /\ exit_status (snd (main_select_asset None "FreeBSD" "amd64"
                         [linux_zip; macos_zip] None)) = Some 0.
Proof. vm_compute. auto. Qed.

(** C7 (amended): all three reported selection failures end [main] by a
    plain return, so the process exits with status 0 and no asset is handed
    on to download and installation: when there are no assets, when a tag is
    present and no asset name contains it, and when, with no tag and several
    assets, the answer read once from the terminal is no integer or an
    integer beyond the list in either direction. *)
Theorem selection_failures_exit_zero (assets : list asset) (choice : option Z) :
  let tag := snd (platform_or_default platform system machine) in
  let run := main_select_asset platform system machine assets choice in
  (assets = [] -> snd run = Return)
  /\ (truthy tag = true ->
      (forall a, In a assets ->
         contains (default EmptyString tag) (lower (name a)) = false) ->
      snd run = Return)
  /\ (truthy tag = false -> (2 <= length assets)%nat ->
      choice = None
      \/ (exists i, choice = Some i
                    /\ (i < - Z.of_nat (length assets) \/ Z.of_nat (length assets) <= i)) ->
      snd run = Return /\ List.last (fst run) EmptyString = "Invalid choice")
  /\ (snd run = Return -> exit_status (snd run) = Some 0).
Proof.
  cbv zeta. unfold main_select_asset. split; [|split; [|split]].
  - intros ->. reflexivity.
  - intros Ht Hnone. destruct assets as [|a0 rest]; [reflexivity|].
    destruct (platform_or_default platform system machine) as [out tag].
    cbn [snd] in *. rewrite Ht, (find_asset_none _ _ Hnone). reflexivity.
  - intros Ht Hlen Hc.
    destruct (platform_or_default platform system machine) as [out tag].
    cbn [snd] in *. rewrite Ht.
    destruct assets as [|a0 [|a1 rest]]; simpl in Hlen; [lia | lia |].
    destruct Hc as [-> | (i & -> & Hi)].
    + cbn [fst snd]. split; [reflexivity|].
      rewrite app_assoc. apply last_last.
    + rewrite (py_index_out_of_range _ _ Hi). cbn [fst snd].
      split; [reflexivity|]. rewrite app_assoc. apply last_last.
  - intros ->. reflexivity.
Qed.

End SelectionFailures.

Lemma selection_failures_exit_zero_witness :
  snd (main_select_asset None "Linux" "x86_64" [] None) = Return
  /\ snd (main_select_asset (Some "bogus-tag") "Linux" "x86_64"
            [linux_zip; macos_zip] None) = Return
  /\ (snd (main_select_asset None "FreeBSD" "amd64" [linux_zip; macos_zip] (Some (-3)))
      = Return
      /\ List.last (fst (main_select_asset None "FreeBSD" "amd64"
                           [linux_zip; macos_zip] (Some (-3)))) EmptyString
         = "Invalid choice")
  /\ exit_status (snd (main_select_asset None "Linux" "x86_64" [] None)) = Some 0.
Proof.
  split; [|split; [|split]].
  - apply (proj1 (selection_failures_exit_zero None "Linux" "x86_64" [] None)).
    reflexivity.
  - apply (proj1 (proj2 (selection_failures_exit_zero (Some "bogus-tag") "Linux"
                           "x86_64" [linux_zip; macos_zip] None))).
    + reflexivity.
    + intros a [<-|[<-|[]]]; vm_compute; reflexivity.
  - apply (proj1 (proj2 (proj2 (selection_failures_exit_zero None "FreeBSD" "amd64"
                                  [linux_zip; macos_zip] (Some (-3)))))).
    + reflexivity.
    + simpl. lia.
    + right. exists (-3). split; [reflexivity | simpl; lia].
  - apply (proj2 (proj2 (proj2 (selection_failures_exit_zero None "Linux" "x86_64"
                                  [] None)))).
    reflexivity.
Defined.

(* ===================================================================== *)
(** * The file system                                                     *)
(* ===================================================================== *)

Section NodeInduction.

Variable P : node -> Prop.
Hypothesis P_file : forall m d, P (File m d).
Hypothesis P_dir :
  forall m es, (forall c ch, In (c, ch) es -> P ch) -> P (Dir m es).

Lemma node_ind : forall n, P n.
Proof.
  fix IH 1. intros [m d|m es].
  - apply P_file.
  - apply P_dir. induction es as [|[c' ch'] es IHes]; intros c ch Hin.
    + destruct Hin.
    + destruct Hin as [E|Hin].
      * injection E as _ <-. apply IH.
      * exact (IHes c ch Hin).
Qed.

End NodeInduction.

Section Listings.

Lemma entry_In (c : string) (es : list (string * node)) (n : node) :
  entry c es = Some n -> In (c, n) es.
Proof.
  induction es as [|[c' n'] es IH]; simpl; [discriminate|].
  destruct (String.eqb_spec c c') as [->|Hne].
  - intros [= ->]. now left.
  - intros H. right. auto.
Qed.

Lemma In_entry (c : string) (es : list (string * node)) (n : node) :
  In (c, n) es -> exists n', entry c es = Some n'.
Proof.
  induction es as [|[c' n'] es IH]; simpl; [intros []|].
  destruct (String.eqb_spec c c') as [->|Hne]; [eauto|].
  intros [[= -> ->]|H]; [congruence | auto].
Qed.

Lemma In_entry_nodup (c : string) (es : list (string * node)) (n : node) :
  NoDup (map fst es) -> In (c, n) es -> entry c es = Some n.
Proof.
  induction es as [|[c' n'] es IH]; simpl; [intros _ []|].
  intros Hnd [[= -> ->]|Hin].
  - now rewrite String.eqb_refl.
  - apply NoDup_cons in Hnd as [Hc Hnd].
    destruct (String.eqb_spec c c') as [->|Hne]; [|auto].
    exfalso. apply Hc. apply list_elem_of_In, in_map_iff. now exists (c', n).
Qed.

Lemma entry_alter (c c' : string) (f : node -> node) (es : list (string * node)) :
  entry c' (alter_entry c f es)
  = if String.eqb c c' then option_map f (entry c es) else entry c' es.
Proof.
  induction es as [|[c0 n0] es IH]; simpl.
  - now destruct (String.eqb c c').
  - destruct (String.eqb_spec c c0) as [->|Hne]; simpl.
    + destruct (String.eqb_spec c' c0) as [->|Hne'].
      * now rewrite String.eqb_refl.
      * destruct (String.eqb_spec c0 c'); [congruence | reflexivity].
    + destruct (String.eqb_spec c' c0) as [->|Hne'].
      * destruct (String.eqb_spec c c0); [congruence | reflexivity].
      * exact IH.
Qed.

Lemma alter_entry_ext (c : string) (f g : node -> node) (es : list (string * node)) :
  (forall n, entry c es = Some n -> f n = g n) ->
  alter_entry c f es = alter_entry c g es.
Proof.
  induction es as [|[c0 n0] es IH]; simpl; intros H; [reflexivity|].
  destruct (String.eqb c c0); [now rewrite H | now rewrite IH].
Qed.


Lemma alter_entry_id (c : string) (es : list (string * node)) (n : node) :
  entry c es = Some n -> alter_entry c (fun _ => n) es = es.
Proof.
  induction es as [|[c0 n0] es IH]; simpl; [reflexivity|].
  destruct (String.eqb c c0); [intros [= ->]; reflexivity|].
  intros H. now rewrite IH.
Qed.

Lemma alter_entry_missing (c : string) (f : node -> node)
    (es tl : list (string * node)) :
  entry c es = None -> alter_entry c f (es ++ tl) = es ++ alter_entry c f tl.
Proof.
  induction es as [|[c0 n0] es IH]; simpl; [reflexivity|].
  destruct (String.eqb c c0); [discriminate|]. intros H. now rewrite IH.
Qed.

Lemma entry_app_missing (c : string) (es tl : list (string * node)) :
  entry c es = None -> entry c (es ++ tl) = entry c tl.
Proof.
  induction es as [|[c0 n0] es IH]; simpl; [reflexivity|].
  destruct (String.eqb c c0); [discriminate | exact IH].
Qed.

Lemma entry_app_present (c : string) (es tl : list (string * node)) (n : node) :
  entry c es = Some n -> entry c (es ++ tl) = Some n.
Proof.
  induction es as [|[c0 n0] es IH]; simpl; [discriminate|].
  destruct (String.eqb c c0); [auto | exact IH].
Qed.


Lemma drop_entry_missing (c : string) (es : list (string * node)) :
  entry c es = None -> drop_entry c es = es.
Proof.
  unfold drop_entry. induction es as [|[c0 n0] es IH]; simpl; [reflexivity|].
  destruct (String.eqb c c0); [discriminate|]. simpl. intros H. now rewrite IH.
Qed.


Lemma entry_drop (c c' : string) (es : list (string * node)) :
  entry c' (drop_entry c es) = if String.eqb c c' then None else entry c' es.
Proof.
  unfold drop_entry. induction es as [|[c0 n0] es IH]; simpl.
  - now destruct (String.eqb c c').
  - destruct (String.eqb_spec c c0) as [->|Hne]; simpl.
    + rewrite IH. destruct (String.eqb_spec c0 c') as [->|Hne'].
      * reflexivity.
      * destruct (String.eqb_spec c' c0); [congruence | reflexivity].
    + rewrite IH. destruct (String.eqb_spec c' c0) as [->|Hne'].
      * destruct (String.eqb_spec c c0); [congruence | reflexivity].
      * reflexivity.
Qed.

End Listings.

Section Paths.

Lemma node_at_app (p q : path) (n : node) :
  node_at (p ++ q) n = node_at p n ≫= node_at q.
Proof.
  revert n. induction p as [|c p IH]; intros n; simpl; [reflexivity|].
  destruct n as [m d|m es]; [reflexivity|].
  destruct (entry c es); [apply IH | reflexivity].
Qed.

Lemma node_at_set_mode (m : Z) (q : path) (n : node) :
  q <> [] -> node_at q (set_mode m n) = node_at q n.
Proof. destruct q; [congruence|]. now destruct n. Qed.

(** [chmod] changes the mode at its path and nothing else that [look] shows. *)
Lemma look_chmod (p : path) (m : Z) (fs : node) (q : path) :
  look (chmod p m fs) q
  = if decide (q = p) then (fun v => (m, snd v)) <$> look fs q else look fs q.
Proof.
  unfold look, chmod. revert fs q. induction p as [|c p IH]; intros fs q.
  - cbn [alter_at]. destruct q as [|c' q].
    + rewrite decide_True by reflexivity. now destruct fs.
    + rewrite decide_False by discriminate.
      now rewrite node_at_set_mode by discriminate.
  - cbn [alter_at]. destruct fs as [m0 d0|m0 es].
    + case_decide; subst; reflexivity.
    + destruct q as [|c' q].
      * rewrite decide_False by discriminate. reflexivity.
      * cbn [node_at]. rewrite entry_alter.
        destruct (String.eqb_spec c c') as [<-|Hne].
        -- destruct (entry c es) as [ch|]; cbn [option_map].
           ++ rewrite IH. repeat case_decide; subst; congruence.
           ++ case_decide; reflexivity.
        -- rewrite decide_False by congruence. reflexivity.
Qed.

End Paths.

Section Discovery.

Lemma in_filenames (nm : string) (es : list (string * node)) :
  In nm (filenames es) <-> exists m d, In (nm, File m d) es.
Proof.
  unfold filenames. rewrite in_map_iff. split.
  - intros ([c n] & <- & Hin). apply filter_In in Hin as [Hin Hf].
    destruct n as [m d|]; [|discriminate]. eauto.
  - intros (m & d & Hin). exists (nm, File m d). split; [reflexivity|].
    apply filter_In. auto.
Qed.








(** A root entry called [verus] that is a directory also counts as found:
    here no file is called [verus] or [verus.exe], yet discovery does not
    fail. *)
Lemma discovery_accepts_root_directory :
  has_file_named "verus" fs_verus_directory = false
  /\ has_file_named "verus.exe" fs_verus_directory = false
  /\ find_verus_binary fs_verus_directory ["out"; "temp_extract"]
     = Some ["out"; "temp_extract"; "verus"].
Proof. vm_compute. auto. Qed.



End Discovery.

(* ===================================================================== *)
(** * Permission normalization                                            *)
(* ===================================================================== *)

Section Normalization.

Variable system : string.
Hypothesis not_windows : system <> "Windows".

Lemma classify_recognizes (d : list byte) (file_path : path) :
  match classify (firstn 4 d) file_path with
  | Some _ => true
  | None => false
  end = has_magic d || known_name file_path.
Proof.
  unfold classify, has_magic.
  destruct (bytes_startswith (firstn 4 d) elf_magic); [reflexivity|].
  destruct (existsb (bytes_startswith (firstn 4 d)) macho_magics); [reflexivity|].
  destruct (bytes_startswith (firstn 4 d) mz_magic); [reflexivity|].
  now destruct (known_name file_path).
Qed.

Lemma make_executable_chmod (file_path : path) (fs : node) (n : node) :
  node_at file_path fs = Some n ->
  make_executable system file_path fs
  = Ok (chmod file_path (Z.lor (mode_of n) S_IEXEC) fs).
Proof.
  intros H. unfold make_executable. rewrite H.
  destruct (String.eqb_spec system "Windows"); [contradiction | reflexivity].
Qed.

(** One turn of the loop either leaves the tree alone or changes the mode
    at the path it was given. *)
Lemma normalize_step_cases (st : trace * node) (file_path : path) :
  snd (normalize_step system st file_path) = snd st
  \/ exists n,
       node_at file_path (snd st) = Some n
       /\ snd (normalize_step system st file_path)
          = chmod file_path (Z.lor (mode_of n) S_IEXEC) (snd st).
Proof.
  destruct st as [out fs]. unfold normalize_step. cbn [snd].
  destruct (is_file fs file_path); [|now left].
  destruct (likely_binary file_path); [|now left].
  destruct (read_header fs file_path) as [h|e]; [|now left].
  destruct (classify h file_path); [|now left].
  unfold make_executable.
  destruct (negb (String.eqb system "Windows")); [|now left].
  destruct (node_at file_path fs) as [n|]; [|now left].
  right. eauto.
Qed.

Lemma look_normalize_step (st : trace * node) (file_path q : path) :
  look (snd (normalize_step system st file_path)) q
  = if decide (q = file_path) then touch file_path <$> look (snd st) q
    else look (snd st) q.
Proof.
  destruct (decide (q = file_path)) as [->|Hne].
  2:{ destruct (normalize_step_cases st file_path) as [->|(n & _ & ->)]; [reflexivity|].
      rewrite look_chmod. now rewrite decide_False. }
  destruct st as [out fs]. cbn [snd].
  unfold normalize_step, is_file, read_header.
  destruct (node_at file_path fs) as [[m d|m es]|] eqn:E.
  - assert (look fs file_path = Some (m, Some d)) as L by (unfold look; now rewrite E).
    rewrite L. cbn [fmap option_fmap option_map touch]. unfold recognized.
    destruct (likely_binary file_path); cbn [andb snd]; [|exact L].
    destruct (Z.testbit m S_IRUSR_bit); cbn [andb snd]; [|exact L].
    rewrite <- classify_recognizes.
    destruct (classify (firstn 4 d) file_path) as [msg|]; cbn [snd]; [|exact L].
    rewrite (make_executable_chmod _ _ _ E). cbn [snd mode_of].
    rewrite look_chmod, decide_True, L by reflexivity. reflexivity.
  - assert (look fs file_path = Some (m, None)) as L by (unfold look; now rewrite E).
    cbn [snd]. now rewrite L.
  - assert (look fs file_path = None) as L by (unfold look; now rewrite E).
    cbn [snd]. now rewrite L.
Qed.

Lemma touch_twice (file_path : path) (v : Z * option (list byte)) :
  touch file_path (touch file_path v) = touch file_path v.
Proof.
  destruct v as [m [d|]]; [|reflexivity]. unfold touch.
  destruct (recognized file_path m d) eqn:R; [|now rewrite R].
  unfold add_exec. cbn [fst snd].
  assert (recognized file_path (Z.lor m S_IEXEC) d = true) as ->.
  { unfold recognized in *. now rewrite Z.lor_spec, orb_false_r. }
  unfold add_exec. cbn [fst snd].
  now rewrite <- Z.lor_assoc, Z.lor_diag.
Qed.

(** After the loop has gone through the paths [todo], [look] shows every
    path of [todo] touched once and every other path as before. *)
Lemma look_fold (todo done : list path) (st : trace * node) (fs : node) :
  (forall q, look (snd st) q
             = if bool_decide (q ∈ done) then touch q <$> look fs q else look fs q) ->
  forall q, look (snd (fold_left (normalize_step system) todo st)) q
            = if bool_decide (q ∈ done ++ todo) then touch q <$> look fs q
              else look fs q.
Proof.
  revert done st. induction todo as [|p todo IH]; intros done st Hinv q.
  - rewrite app_nil_r. apply Hinv.
  - cbn [fold_left].
    replace (done ++ p :: todo) with ((done ++ [p]) ++ todo)
      by (now rewrite <- app_assoc).
    apply IH. clear q. intros q. rewrite look_normalize_step, Hinv.
    destruct (decide (q = p)) as [->|Hne].
    + rewrite (bool_decide_eq_true_2 (p ∈ done ++ [p]))
        by (apply elem_of_app; right; now left).
      case_bool_decide; [|reflexivity].
      destruct (look fs p) as [v|]; [|reflexivity].
      cbn. now rewrite touch_twice.
    + rewrite (bool_decide_ext (q ∈ done ++ [p]) (q ∈ done)); [reflexivity|].
      rewrite elem_of_app, list_elem_of_singleton. tauto.
Qed.

Lemma walk_dirs_reaches (rel top : path) (n : node) (m : Z)
    (es : list (string * node)) :
  node_at rel n = Some (Dir m es) -> In (top ++ rel, es) (walk_dirs top n).
Proof.
  revert top n. induction rel as [|c rel IH]; intros top n H.
  - injection H as ->. rewrite app_nil_r. now left.
  - destruct n as [m0 d0|m0 es0]; [discriminate|]. cbn [node_at] in H.
    destruct (entry c es0) as [ch|] eqn:E; [|discriminate].
    cbn [walk_dirs]. right. apply in_flat_map. exists (c, ch).
    split; [now apply entry_In|]. cbn [fst snd].
    replace (top ++ c :: rel) with ((top ++ [c]) ++ rel) by (now rewrite <- app_assoc).
    now apply IH.
Qed.

Lemma walk_dirs_prefix (n : node) :
  forall top d, In d (walk_dirs top n) -> exists q, fst d = top ++ q.
Proof.
  induction n as [m d|m es IH] using node_ind; intros top d' H; [destruct H|].
  cbn [walk_dirs] in H. destruct H as [<-|H].
  - exists []. now rewrite app_nil_r.
  - apply in_flat_map in H as ([c ch] & Hin & H). cbn [fst snd] in H.
    destruct (IH _ _ Hin _ _ H) as [q ->]. exists (c :: q).
    now rewrite <- app_assoc.
Qed.

(** Every path the loop visits lies below the install directory, and every
    entry below the install directory is visited. *)
Lemma rglob_prefix (fs : node) (install_dir p : path) :
  In p (rglob fs install_dir) -> exists q, p = install_dir ++ q.
Proof.
  unfold rglob. destruct (node_at install_dir fs) as [n|]; [|intros []].
  intros ([root es] & Hd & Hp)%in_flat_map. cbn [fst snd] in Hp.
  apply in_map_iff in Hp as (e & <- & _).
  destruct (walk_dirs_prefix _ _ _ Hd) as [q Hq]. cbn [fst] in Hq. subst root.
  exists (q ++ [fst e]). now rewrite app_assoc.
Qed.

Lemma rglob_complete (fs : node) (install_dir rel : path) (x : node) :
  rel <> [] -> node_at (install_dir ++ rel) fs = Some x ->
  In (install_dir ++ rel) (rglob fs install_dir).
Proof.
  intros Hrel H. destruct (exists_last Hrel) as (rel0 & c & ->).
  rewrite node_at_app in H. unfold rglob.
  destruct (node_at install_dir fs) as [n0|]; [|discriminate].
  cbn in H. rewrite node_at_app in H.
  destruct (node_at rel0 n0) as [[m d|m es]|] eqn:E; try discriminate.
  cbn in H. destruct (entry c es) as [ch|] eqn:Ec; [|discriminate].
  apply in_flat_map. exists (install_dir ++ rel0, es).
  split; [now apply walk_dirs_reaches with m|]. cbn [fst snd].
  apply in_map_iff. exists (c, ch). split; [now rewrite <- app_assoc|].
  now apply entry_In.
Qed.

(** What [look] shows after normalization. *)
Lemma look_make_all (install_dir : path) (fs : node) (q : path) :
  look (snd (make_all_binaries_executable system install_dir fs)) q
  = if bool_decide (q ∈ rglob fs install_dir) then touch q <$> look fs q
    else look fs q.
Proof.
  unfold make_all_binaries_executable.
  destruct (String.eqb_spec system "Windows"); [contradiction|].
  apply (look_fold (rglob fs install_dir) [] ([], fs) fs).
  intros q'. cbn [snd]. rewrite bool_decide_eq_false_2; [reflexivity|].
  apply not_elem_of_nil.
Qed.

Lemma look_file (fs : node) (p : path) (m : Z) (d : list byte) :
  look fs p = Some (m, Some d) <-> node_at p fs = Some (File m d).
Proof.
  unfold look. destruct (node_at p fs) as [[m' d'|m' es]|]; split; congruence.
Qed.

End Normalization.

Lemma make_all_on_windows (install_dir : path) (fs : node) :
  make_all_binaries_executable "Windows" install_dir fs = ([], fs).
Proof. reflexivity. Qed.

(** C1, as stated, fails: under [/home/u/verus] the shared library
    [lib/libz3.so] starts with the ELF magic number, but its name does not
    pass the "likely a binary" test, so it is never opened and keeps mode
    0o644, without the owner-execute bit; the ELF file [verus] next to it
    gets the bit. *)
Lemma elf_library_not_marked :
  let install_dir := ["home"; "u"; "verus"] in
  let after := snd (make_all_binaries_executable "Linux" install_dir fs_installed) in
  node_at (install_dir ++ ["lib"; "libz3.so"]) fs_installed = Some (File 420 elf_bytes)
  /\ firstn 4 elf_bytes = elf_magic
  /\ node_at (install_dir ++ ["lib"; "libz3.so"]) after = Some (File 420 elf_bytes)
  /\ Z.testbit 420 6 = false
  /\ node_at (install_dir ++ ["verus"]) after = Some (File 484 elf_bytes).
Proof. vm_compute. auto. Qed.

(** C1 (amended): on a platform other than Windows, permission
    normalization opens only the regular files under the install directory
    that pass the "likely a binary" test (no suffix, suffix [.exe], a name
    starting with [rust_] or [verus], or [bin] in the lower-cased path of the
    parent directory).  Such a file, when readable, whose first four bytes
    match a known magic number (ELF, the four Mach-O numbers, MZ) gets the
    owner-execute bit by bitwise OR with its mode; no file loses a
    permission bit and no file's bytes change; in particular a readable
    file passing the test whose first four bytes are 7F 45 4C 46 is
    executable by its owner afterwards, and a file with no recognized
    header and no matching name keeps its mode. *)
Theorem normalization_by_header (system : string) (install_dir rel : path)
    (fs : node) (m : Z) (d : list byte) :
  system <> "Windows" ->
  rel <> [] ->
  node_at (install_dir ++ rel) fs = Some (File m d) ->
  let file_path := install_dir ++ rel in
  let after := snd (make_all_binaries_executable system install_dir fs) in
  let m' := if recognized file_path m d then Z.lor m S_IEXEC else m in
  node_at file_path after = Some (File m' d)
  /\ (forall i, Z.testbit m i = true -> Z.testbit m' i = true)
  /\ (likely_binary file_path = true -> Z.testbit m S_IRUSR_bit = true ->
      has_magic d = true -> m' = Z.lor m S_IEXEC)
  /\ (likely_binary file_path = true -> Z.testbit m S_IRUSR_bit = true ->
      firstn 4 d = elf_magic -> Z.testbit m' 6 = true)
  /\ (has_magic d = false -> known_name file_path = false -> m' = m).
Proof.
  intros Hsys Hrel Hfile. cbv zeta. split; [|split; [|split; [|split]]].
  - apply look_file. rewrite (look_make_all system Hsys).
    rewrite bool_decide_eq_true_2
      by (apply list_elem_of_In; eapply rglob_complete; eauto).
    apply look_file in Hfile. rewrite Hfile. cbn [fmap option_fmap option_map touch].
    now destruct (recognized (install_dir ++ rel) m d).
  - intros i Hi. destruct (recognized (install_dir ++ rel) m d); [|exact Hi].
    destruct (Z.neg_nonneg_cases i) as [Hneg|Hpos].
    + now rewrite Z.testbit_neg_r in Hi.
    + rewrite Z.lor_spec, Hi. reflexivity.
  - intros H1 H2 H3. unfold recognized. now rewrite H1, H2, H3.
  - intros H1 H2 H3. unfold recognized, has_magic. rewrite H1, H2, H3.
    change (bytes_startswith elf_magic elf_magic) with true. cbn [andb orb].
    rewrite Z.lor_spec. change (Z.testbit S_IEXEC 6) with true. apply orb_true_r.
  - intros H1 H2. unfold recognized. rewrite H1, H2. now rewrite andb_false_r.
Qed.

Lemma normalization_by_header_witness :
  let install_dir := ["home"; "u"; "verus"] in
  let after := snd (make_all_binaries_executable "Linux" install_dir fs_installed) in
  node_at (install_dir ++ ["z3"]) after = Some (File 484 elf_bytes)
  /\ Z.testbit 484 6 = true.
Proof.
  cbv zeta.
  pose proof (normalization_by_header "Linux" ["home"; "u"; "verus"] ["z3"]
                fs_installed 420 elf_bytes) as H.
  cbv zeta in H. destruct H as (Hnode & _ & _ & Helf & _).
  - discriminate.
  - discriminate.
  - reflexivity.
  - split.
    + exact Hnode.
    + apply Helf; reflexivity.
Defined.

(* ===================================================================== *)
(** * Replacing the install directory                                     *)
(* ===================================================================== *)

Section TreeSurgery.

Lemma alter_entry_none (c : string) (f : node -> node) (es : list (string * node)) :
  entry c es = None -> alter_entry c f es = es.
Proof.
  intros H. rewrite <- (app_nil_r es) at 1.
  rewrite alter_entry_missing by exact H. apply app_nil_r.
Qed.

Lemma is_prefix_cons (c c' : string) (p q : path) :
  is_prefix (c :: p) (c' :: q) = String.eqb c c' && is_prefix p q.
Proof. reflexivity. Qed.

(** Changes at [p] are not seen at a path that is neither below nor above
    [p]. *)
Lemma node_at_alter_disjoint (f : node -> node) (p q : path) (fs : node) :
  path_disjoint p q = true -> node_at q (alter_at f p fs) = node_at q fs.
Proof.
  unfold path_disjoint. revert q fs. induction p as [|c p IH]; intros q fs H.
  - discriminate.
  - destruct q as [|c' q]; [now rewrite andb_false_r in H|].
    destruct fs as [m d|m es]; [reflexivity|]. cbn [alter_at node_at].
    rewrite entry_alter. rewrite !is_prefix_cons in H.
    destruct (String.eqb_spec c c') as [<-|Hne]; [|reflexivity].
    rewrite String.eqb_refl in H. cbn [andb] in H.
    destruct (entry c es) as [ch|]; [|reflexivity]. cbn [option_map].
    now apply IH.
Qed.

Lemma node_at_remove_disjoint (p q : path) (fs : node) :
  path_disjoint p q = true -> node_at q (remove_at p fs) = node_at q fs.
Proof.
  unfold path_disjoint. revert q fs. induction p as [|c p IH]; intros q fs H.
  - discriminate.
  - destruct q as [|c' q]; [now rewrite andb_false_r in H|].
    destruct fs as [m d|m es]; [reflexivity|]. cbn [remove_at].
    rewrite !is_prefix_cons in H.
    destruct p as [|c1 p].
    + cbn [node_at]. rewrite entry_drop.
      destruct (String.eqb_spec c c') as [<-|Hne]; [|reflexivity].
      rewrite String.eqb_refl in H. discriminate H.
    + cbn [node_at]. rewrite entry_alter.
      destruct (String.eqb_spec c c') as [<-|Hne]; [|reflexivity].
      rewrite String.eqb_refl in H. cbn [andb] in H.
      destruct (entry c es) as [ch|]; [|reflexivity]. cbn [option_map].
      now apply IH.
Qed.

Lemma node_at_makedirs (dmode : Z) (p : path) (new : node) :
  node_at p (makedirs dmode p new) = Some new.
Proof.
  induction p as [|c p IH]; [reflexivity|]. cbn [makedirs fold_right node_at entry].
  rewrite String.eqb_refl. exact IH.
Qed.

Lemma node_at_put (dmode : Z) (p : path) (new fs fs' : node) :
  put_at dmode p new fs = Ok fs' -> node_at p fs' = Some new.
Proof.
  revert fs fs'. induction p as [|c p IH]; intros fs fs' H; [discriminate|].
  destruct fs as [m d|m es]; [discriminate|]. cbn [put_at] in H.
  destruct (entry c es) as [ch|] eqn:E.
  - destruct (put_at dmode p new ch) as [ch'|e] eqn:Hp; [|discriminate].
    injection H as <-. cbn [node_at]. rewrite entry_alter, String.eqb_refl, E.
    cbn [option_map]. eauto.
  - destruct (can_write_dir m && _); [|discriminate].
    injection H as <-. cbn [node_at]. rewrite (entry_app_missing _ _ _ E).
    cbn [entry]. rewrite String.eqb_refl. apply node_at_makedirs.
Qed.

Lemma node_at_makedirs_disjoint (dmode : Z) (p q : path) (new : node) :
  path_disjoint p q = true -> node_at q (makedirs dmode p new) = None.
Proof.
  unfold path_disjoint. revert q. induction p as [|c p IH]; intros q D; [discriminate|].
  destruct q as [|c' q]; [now rewrite andb_false_r in D|].
  cbn [makedirs fold_right node_at entry]. rewrite !is_prefix_cons in D.
  rewrite (String.eqb_sym c c') in D.
  destruct (String.eqb c' c) eqn:E; [|reflexivity].
  cbn [andb] in D. now apply IH.
Qed.

Lemma node_at_put_disjoint (dmode : Z) (p q : path) (new fs fs' : node) :
  put_at dmode p new fs = Ok fs' -> path_disjoint p q = true ->
  node_at q fs' = node_at q fs.
Proof.
  revert q fs fs'.
  induction p as [|c p IH]; intros q fs fs' H D; [discriminate|].
  destruct q as [|c' q]; [unfold path_disjoint in D; now rewrite andb_false_r in D|].
  destruct fs as [m d|m es]; [discriminate|]. cbn [put_at] in H.
  assert (c = c' -> path_disjoint p q = true) as Dsub.
  { intros <-. unfold path_disjoint in *. rewrite !is_prefix_cons in D.
    now rewrite String.eqb_refl in D. }
  destruct (entry c es) as [ch|] eqn:E.
  - destruct (put_at dmode p new ch) as [ch'|e] eqn:Hp; [|discriminate].
    injection H as <-. cbn [node_at]. rewrite entry_alter.
    destruct (String.eqb_spec c c') as [<-|Hne]; [|reflexivity].
    rewrite E. cbn [option_map]. eauto.
  - destruct (can_write_dir m && _); [|discriminate].
    injection H as <-. cbn [node_at].
    destruct (String.eqb_spec c c') as [<-|Hne].
    + rewrite (entry_app_missing _ _ _ E), E. cbn [entry].
      rewrite String.eqb_refl. apply node_at_makedirs_disjoint. auto.
    + destruct (entry c' es) as [n|] eqn:E'.
      * now rewrite (entry_app_present _ _ _ _ E').
      * rewrite (entry_app_missing _ _ _ E'). cbn [entry].
        destruct (String.eqb_spec c' c); [congruence | reflexivity].
Qed.


Lemma remove_at_missing (p : path) (fs : node) :
  node_at p fs = None -> remove_at p fs = fs.
Proof.
  revert fs. induction p as [|c p IH]; intros fs H; [discriminate|].
  destruct fs as [m d|m es]; [reflexivity|]. cbn [node_at remove_at] in *.
  destruct (entry c es) as [ch|] eqn:E.
  - destruct p as [|c1 p]; [discriminate|].
    rewrite (alter_entry_ext c _ (fun _ => ch)).
    + now rewrite alter_entry_id.
    + intros n Hn. rewrite E in Hn. injection Hn as <-. now apply IH.
  - destruct p as [|c1 p].
    + now rewrite drop_entry_missing.
    + now rewrite alter_entry_none.
Qed.

Lemma remove_at_cons (c : string) (p : path) (m : Z) (es : list (string * node)) :
  p <> [] ->
  remove_at (c :: p) (Dir m es) = Dir m (alter_entry c (remove_at p) es).
Proof. destruct p; [congruence | reflexivity]. Qed.






End TreeSurgery.

Section Install.

Variables (system : string) (dmode : Z) (home : path).

Lemma path_disjoint_sym (p q : path) : path_disjoint p q = path_disjoint q p.
Proof. unfold path_disjoint. apply andb_comm. Qed.

Lemma path_disjoint_app (p q r : path) :
  path_disjoint p q = true -> path_disjoint p (q ++ r) = true.
Proof.
  unfold path_disjoint. revert q. induction p as [|c p IH]; intros q H; [discriminate|].
  destruct q as [|c' q]; [now rewrite andb_false_r in H|].
  cbn [app]. rewrite !is_prefix_cons in *. rewrite (String.eqb_sym c' c) in *.
  destruct (String.eqb c c'); [|reflexivity]. cbn [andb] in *. now apply IH.
Qed.

Lemma wf_entry (m : Z) (es : list (string * node)) (c : string) (ch : node) :
  wf (Dir m es) = true -> In (c, ch) es -> wf ch = true /\ entry c es = Some ch.
Proof.
  cbn [wf]. intros [Hnd Hall]%andb_true_iff Hin. split.
  - rewrite forallb_forall in Hall. exact (Hall _ Hin).
  - apply bool_decide_eq_true in Hnd. now apply In_entry_nodup.
Qed.

Lemma wf_node_at (p : path) (fs n : node) :
  wf fs = true -> node_at p fs = Some n -> wf n = true.
Proof.
  revert fs. induction p as [|c p IH]; intros fs Hwf H.
  - now injection H as <-.
  - destruct fs as [m d|m es]; [discriminate|]. cbn [node_at] in H.
    destruct (entry c es) as [ch|] eqn:E; [|discriminate].
    apply entry_In in E. destruct (wf_entry _ _ _ _ Hwf E) as [Hch _]. eauto.
Qed.

(** In a well-formed tree every directory of the walk is the directory its
    path names. *)
Lemma walk_dirs_node_at (n : node) :
  forall top root es,
    wf n = true -> In (root, es) (walk_dirs top n) ->
    exists q m, root = top ++ q /\ node_at q n = Some (Dir m es).
Proof.
  induction n as [m d|m es0 IH] using node_ind; intros top root es Hwf H;
    [destruct H|].
  cbn [walk_dirs] in H. destruct H as [[= <- <-]|H].
  - exists [], m. now rewrite app_nil_r.
  - apply in_flat_map in H as ([c ch] & Hin & H). cbn [fst snd] in H.
    destruct (wf_entry _ _ _ _ Hwf Hin) as [Hch Hentry].
    destruct (IH _ _ Hin _ _ _ Hch H) as (q & m' & -> & Hq).
    exists (c :: q), m'. split; [now rewrite <- app_assoc|].
    cbn [node_at]. now rewrite Hentry.
Qed.

(** What discovery returns is an entry of a directory below the extracted
    root. *)
Lemma find_verus_binary_shape (fs : node) (extract_dir b : path) :
  wf fs = true -> find_verus_binary fs extract_dir = Some b ->
  exists q nm m es x,
    b = (extract_dir ++ q) ++ [nm]
    /\ node_at (extract_dir ++ q) fs = Some (Dir m es)
    /\ entry nm es = Some x.
Proof.
  intros Hwf.
  assert (forall nm,
             (exists_ fs (extract_dir ++ [nm]) = true /\ b = extract_dir ++ [nm])
             \/ find_in_walk nm (os_walk fs extract_dir) = Some b ->
             exists q nm m es x,
               b = (extract_dir ++ q) ++ [nm]
               /\ node_at (extract_dir ++ q) fs = Some (Dir m es)
               /\ entry nm es = Some x) as Hone.
  { intros nm [[He ->]|Hw].
    - unfold exists_ in He. rewrite node_at_app in He.
      destruct (node_at extract_dir fs) as [[m d|m es]|] eqn:E; try discriminate.
      cbn in He. destruct (entry nm es) as [x|] eqn:Ex; [|discriminate].
      exists [], nm, m, es, x. rewrite app_nil_r. auto.
    - unfold find_in_walk in Hw.
      destruct (find _ (os_walk fs extract_dir)) as [t|] eqn:F; [|discriminate].
      injection Hw as <-. apply find_some in F as [Hin Hnm].
      unfold os_walk in Hin.
      destruct (node_at extract_dir fs) as [n0|] eqn:E; [|destruct Hin].
      apply in_map_iff in Hin as ([root es] & <- & Hd). cbn [fst snd] in *.
      destruct (walk_dirs_node_at n0 _ _ _ (wf_node_at _ _ _ Hwf E) Hd)
        as (q & m & -> & Hq).
      apply str_in_spec, in_filenames in Hnm as (m' & d' & Hfile).
      apply In_entry in Hfile as [x Hx].
      exists q, nm, m, es, x. rewrite node_at_app, E. cbn. auto. }
  unfold find_verus_binary. cbn [find_verus_binary_loop].
  destruct (exists_ fs (extract_dir ++ ["verus"])) eqn:E1.
  { intros [= <-]. apply (Hone "verus"). auto. }
  destruct (find_in_walk "verus" (os_walk fs extract_dir)) eqn:W1.
  { intros [= <-]. apply (Hone "verus"). auto. }
  destruct (exists_ fs (extract_dir ++ ["verus.exe"])) eqn:E2.
  { intros [= <-]. apply (Hone "verus.exe"). auto. }
  destruct (find_in_walk "verus.exe" (os_walk fs extract_dir)) eqn:W2.
  { intros [= <-]. apply (Hone "verus.exe"). auto. }
  discriminate.
Qed.














(** Whatever holds of the tree and survives a [chmod] that adds the
    owner-execute bit below the install directory, holds after
    normalization and after the final [make_executable]. *)
Lemma make_all_preserves (Phi : node -> Prop) (install_dir : path) (fs : node) :
  (forall fs0 q n, Phi fs0 -> node_at (install_dir ++ q) fs0 = Some n ->
     Phi (chmod (install_dir ++ q) (Z.lor (mode_of n) S_IEXEC) fs0)) ->
  Phi fs -> Phi (snd (make_all_binaries_executable system install_dir fs)).
Proof.
  intros Hstep H0. unfold make_all_binaries_executable.
  destruct (String.eqb system "Windows"); [exact H0|].
  assert (forall l st,
             (forall p, In p l -> exists q, p = install_dir ++ q) ->
             Phi (snd st) -> Phi (snd (fold_left (normalize_step system) l st))) as Hfold.
  { induction l as [|p l IH]; intros st Hl Hst; [exact Hst|].
    cbn [fold_left]. apply IH; [intros p' Hp'; apply Hl; now right|].
    destruct (Hl p) as [q ->]; [now left|].
    destruct (normalize_step_cases system st (install_dir ++ q))
      as [->|(n & Hn & ->)]; eauto. }
  apply Hfold; [|exact H0]. intros p Hp. eapply rglob_prefix, Hp.
Qed.

Lemma finish_preserves (Phi : node -> Prop) (install_dir : path) (nm : string)
    (fs fs1 : node) :
  (forall fs0 q n, Phi fs0 -> node_at (install_dir ++ q) fs0 = Some n ->
     Phi (chmod (install_dir ++ q) (Z.lor (mode_of n) S_IEXEC) fs0)) ->
  Phi fs ->
  make_executable system (install_dir ++ [nm])
    (snd (make_all_binaries_executable system install_dir fs)) = Ok fs1 ->
  Phi fs1.
Proof.
  intros Hstep H0 H.
  pose proof (make_all_preserves Phi install_dir fs Hstep H0) as Hm.
  unfold make_executable in H.
  destruct (negb (String.eqb system "Windows")); [|now injection H as <-].
  destruct (node_at (install_dir ++ [nm]) _) as [n|] eqn:E; [|discriminate].
  injection H as <-. eauto.
Qed.

Lemma look_is_Some (fs : node) (p : path) :
  is_Some (look fs p) <-> is_Some (node_at p fs).
Proof.
  unfold look. destruct (node_at p fs) as [[m d|m es]|]; split; intros [v H];
    try discriminate; eauto.
Qed.

Lemma look_mode (fs : node) (p : path) (n : node) :
  node_at p fs = Some n -> exists k, look fs p = Some (mode_of n, k).
Proof. unfold look. intros ->. destruct n; eauto. Qed.

Lemma look_dir (fs : node) (p : path) (m : Z) :
  look fs p = Some (m, None) <-> exists es, node_at p fs = Some (Dir m es).
Proof.
  unfold look. destruct (node_at p fs) as [[m' d|m' es]|]; split;
    try discriminate; try (intros [es' H]; discriminate H).
  - intros [= ->]. eauto.
  - intros [es' [= -> ->]]. reflexivity.
Qed.




Lemma finish_disjoint (install_dir q : path) (nm : string) (fs fs1 : node) :
  path_disjoint install_dir q = true ->
  make_executable system (install_dir ++ [nm])
    (snd (make_all_binaries_executable system install_dir fs)) = Ok fs1 ->
  node_at q fs1 = node_at q fs.
Proof.
  intros Hd.
  apply (finish_preserves (fun fs0 => node_at q fs0 = node_at q fs)); [|reflexivity].
  intros fs0 r n H0 _. unfold chmod. rewrite node_at_alter_disjoint; [exact H0|].
  rewrite path_disjoint_sym. apply path_disjoint_app. now rewrite path_disjoint_sym.
Qed.




End Install.



(** The earlier installation's own file is gone after the run, and the
    installed binary is executable. *)
Example install_replaces_old_content :
  match setup_verus_installation "Linux" 493 ["home"; "u"] ["out"; "temp_extract"]
          (Some ["home"; "u"; "verus"]) fs_old_install with
  | Ok (_, fs1, _, _) =>
      node_at ["home"; "u"; "verus"] fs1
      = Some (Dir 493 [("verus", File 484 elf_bytes);
                       ("README.md", File 420 text_bytes)])
      /\ node_at ["home"; "u"; "verus"; "old-notes.txt"] fs1 = None
  | Raise _ => False
  end.
Proof. vm_compute. auto. Qed.


(* ===================================================================== *)
(** * Downloader                                                          *)
(* ===================================================================== *)

Section Downloader.

Variables (with_callback : bool) (total_size : Z).

Lemma download_fold (chunks : list (list byte)) (st : download_state) :
  let st' := fold_left (download_step with_callback total_size) chunks st in
  written st' = written st ++ List.concat chunks
  /\ downloaded st' = downloaded st + Z.of_nat (length (List.concat chunks)).
Proof.
  revert st. induction chunks as [|chunk chunks IH]; intros st; cbn [fold_left List.concat].
  - rewrite app_nil_r. cbn. split; [reflexivity | lia].
  - destruct (IH (download_step with_callback total_size st chunk)) as [Hw Hd].
    cbv zeta in *. rewrite Hw, Hd. rewrite length_app.
    destruct chunk as [|b chunk]; cbn [download_step written downloaded].
    + cbn. split; [reflexivity | lia].
    + rewrite <- app_assoc. split; [reflexivity | lia].
Qed.

Lemma sorted_snoc (l : list Z) (x : Z) :
  StronglySorted Z.lt l -> List.Forall (fun y => y < x) l ->
  StronglySorted Z.lt (l ++ [x]).
Proof.
  induction 1 as [|y l Hs IH Hy]; intros Hall; cbn.
  - repeat constructor.
  - apply List.Forall_cons_iff in Hall as [Hyx Hall]. constructor; [auto|].
    apply List.Forall_app. split; [exact Hy | repeat constructor; exact Hyx].
Qed.

Lemma download_skips_empty (chunks : list (list byte)) (st : download_state) :
  List.concat chunks = [] ->
  fold_left (download_step with_callback total_size) chunks st = st.
Proof.
  revert st. induction chunks as [|c chunks IH]; intros st H; [reflexivity|].
  cbn [List.concat] in H. apply app_eq_nil in H as [-> H].
  cbn [fold_left download_step]. auto.
Qed.

Lemma download_calls_fold (chunks : list (list byte)) (st : download_state) :
  let flag := with_callback && (0 <? total_size) in
  let st' := fold_left (download_step with_callback total_size) chunks st in
  StronglySorted Z.lt (map fst (progress_calls st)) ->
  List.Forall (fun c => snd c = total_size /\ 0 < fst c <= downloaded st)
    (progress_calls st) ->
  0 <= downloaded st ->
  StronglySorted Z.lt (map fst (progress_calls st'))
  /\ List.Forall (fun c => snd c = total_size /\ 0 < fst c <= downloaded st')
       (progress_calls st')
  /\ length (progress_calls st')
     = (length (progress_calls st)
        + if flag then length (List.filter (fun c => negb (bool_decide (c = []))) chunks)
          else 0)%nat
  /\ (flag = true -> List.concat chunks <> [] ->
      exists init, progress_calls st' = init ++ [(downloaded st', total_size)]).
Proof.
  cbv zeta. revert st.
  induction chunks as [|chunk chunks IH]; intros st Hs Hall Hd; cbn [fold_left].
  - repeat split; auto.
    + destruct (with_callback && (0 <? total_size)); cbn; lia.
    + intros _ H. now contradiction H.
  - destruct chunk as [|b chunk].
    + cbn [download_step List.concat app List.filter].
      rewrite bool_decide_eq_true_2 by reflexivity. cbn [negb]. now apply IH.
    + set (st1 := download_step with_callback total_size st (b :: chunk)).
      assert (downloaded st1 = downloaded st + Z.of_nat (length (b :: chunk))) as Hd1
        by reflexivity.
      assert (downloaded st < downloaded st1) as Hlt by (rewrite Hd1; cbn [length]; lia).
      assert (StronglySorted Z.lt (map fst (progress_calls st1))
              /\ List.Forall (fun c => snd c = total_size /\ 0 < fst c <= downloaded st1)
                   (progress_calls st1)) as [Hs1 Hall1].
      { assert (List.Forall (fun c => snd c = total_size /\ 0 < fst c <= downloaded st1)
                  (progress_calls st)) as Hweak.
        { eapply List.Forall_impl; [|exact Hall]. cbn. intros c [? ?]. split; [auto | lia]. }
        assert (progress_calls st1
                = if with_callback && (0 <? total_size)
                  then progress_calls st ++ [(downloaded st1, total_size)]
                  else progress_calls st) as -> by reflexivity.
        destruct (with_callback && (0 <? total_size)); [|auto].
        split.
        - rewrite map_app. cbn [map fst]. apply sorted_snoc; [exact Hs|].
          apply List.Forall_map. eapply List.Forall_impl; [|exact Hall].
          cbn. intros c [_ ?]. lia.
        - apply List.Forall_app. split; [exact Hweak|].
          repeat constructor; cbn [fst snd]; lia. }
      destruct (IH st1 Hs1 Hall1) as (Hs' & Hall' & Hlen & Hlast); [lia|].
      split; [exact Hs'|]. split; [exact Hall'|]. split.
      * rewrite Hlen. unfold st1. cbn [download_step progress_calls List.filter].
        rewrite bool_decide_eq_false_2 by discriminate. cbn [negb].
        destruct (with_callback && (0 <? total_size)); [|reflexivity].
        rewrite length_app. cbn [length]. lia.
      * intros Hflag _.
        destruct (list_eq_nil_dec (List.concat chunks)) as [Hnil|Hne].
        -- rewrite (download_skips_empty _ _ Hnil).
           unfold st1 at 1. cbn [download_step progress_calls]. rewrite Hflag.
           eexists. reflexivity.
        -- now apply Hlast.
Qed.

End Downloader.

(** The file and the counter after the loop. *)
Lemma download_written (total_size : Z) (chunks chunks' : list (list byte))
    (with_callback : bool) :
  let st := download_file total_size chunks with_callback in
  written st = List.concat chunks
  /\ downloaded st = Z.of_nat (length (List.concat chunks))
  /\ (List.concat chunks = List.concat chunks' ->
      forall total_size' with_callback',
        written (download_file total_size' chunks' with_callback') = written st).
Proof.
  cbv zeta. unfold download_file.
  destruct (download_fold with_callback total_size chunks (mk_download [] 0 []))
    as [Hw Hd].
  cbv zeta in *. cbn [written downloaded app] in *. rewrite Hw, Hd.
  split; [reflexivity|]. split; [lia|].
  intros E total_size' with_callback'.
  destruct (download_fold with_callback' total_size' chunks' (mk_download [] 0 []))
    as [Hw' _].
  cbv zeta in Hw'. cbn [written app] in Hw'. now rewrite Hw'.
Qed.

(** X1: the file holds exactly the bytes of the chunks in their order, and
    the counter ends at their number, whatever the chunking, the
    content-length header and the callback. *)
Theorem download_file_content (total_size : Z) (chunks chunks' : list (list byte))
    (with_callback : bool) :
  let st := download_file total_size chunks with_callback in
  written st = List.concat chunks
  /\ downloaded st = Z.of_nat (length (List.concat chunks))
  /\ (List.concat chunks = List.concat chunks' ->
      forall total_size' with_callback',
        written (download_file total_size' chunks' with_callback') = written st).
Proof. exact (download_written total_size chunks chunks' with_callback). Qed.

Lemma download_file_content_witness :
  written (download_file 0 [[x50; x4b]; []; [x03]; [x04]] false)
  = written (download_file 4 [[x50; x4b; x03]; [x04]] true).
Proof.
  symmetry.
  apply (proj2 (proj2 (download_file_content 0 [[x50; x4b]; []; [x03]; [x04]]
                         [[x50; x4b; x03]; [x04]] false))).
  reflexivity.
Defined.

(** The calls made to the callback. *)
Lemma download_calls (total_size : Z) (chunks : list (list byte)) :
  let st := download_file total_size chunks true in
  let size := Z.of_nat (length (List.concat chunks)) in
  (0 < total_size ->
   StronglySorted Z.lt (map fst (progress_calls st))
   /\ List.Forall (fun c => snd c = total_size /\ 0 < fst c <= size) (progress_calls st)
   /\ length (progress_calls st)
      = length (List.filter (fun c => negb (bool_decide (c = []))) chunks)
   /\ (List.concat chunks <> [] ->
       exists init, progress_calls st = init ++ [(size, total_size)]))
  /\ (total_size <= 0 -> progress_calls st = [])
  /\ progress_calls (download_file total_size chunks false) = [].
Proof.
  cbv zeta.
  assert (forall cb, downloaded (download_file total_size chunks cb)
                     = Z.of_nat (length (List.concat chunks))) as Hsize
    by (intros cb; apply (download_written total_size chunks chunks cb)).
  assert (forall cb,
             cb && (0 <? total_size) = false ->
             progress_calls (download_file total_size chunks cb) = []) as Hnone.
  { intros cb Hflag.
    destruct (download_calls_fold cb total_size chunks (mk_download [] 0 []))
      as (_ & _ & Hlen & _); [constructor | constructor | cbn; lia |].
    cbv zeta in Hlen. rewrite Hflag in Hlen. cbn in Hlen.
    now apply length_zero_iff_nil. }
  split; [|split].
  - intros Hpos.
    destruct (download_calls_fold true total_size chunks (mk_download [] 0 []))
      as (Hs & Hall & Hlen & Hlast); [constructor | constructor | cbn; lia |].
    cbv zeta in *. fold (download_file total_size chunks true) in *.
    rewrite Hsize in *.
    assert ((0 <? total_size) = true) as Hflag by (apply Z.ltb_lt; exact Hpos).
    rewrite Hflag in *. cbn [andb length Nat.add progress_calls] in *. auto.
  - intros Hle. apply Hnone. cbn [andb]. apply Z.ltb_ge. exact Hle.
  - apply Hnone. reflexivity.
Qed.

(** X2: the progress callback is called once for every non-empty chunk,
    with the byte count so far and the announced total; the counts rise
    strictly and the last one is the size of the file.  Without a callback,
    or when the total is not announced (0 or less), it is never called. *)
Theorem download_file_progress (total_size : Z) (chunks : list (list byte)) :
  let st := download_file total_size chunks true in
  let size := Z.of_nat (length (List.concat chunks)) in
  (0 < total_size ->
   StronglySorted Z.lt (map fst (progress_calls st))
   /\ List.Forall (fun c => snd c = total_size /\ 0 < fst c <= size) (progress_calls st)
   /\ length (progress_calls st)
      = length (List.filter (fun c => negb (bool_decide (c = []))) chunks)
   /\ (List.concat chunks <> [] ->
       exists init, progress_calls st = init ++ [(size, total_size)]))
  /\ (total_size <= 0 -> progress_calls st = [])
  /\ progress_calls (download_file total_size chunks false) = [].
Proof. exact (download_calls total_size chunks). Qed.

Lemma download_file_progress_witness :
  progress_calls (download_file 4 [[x50; x4b]; []; [x03]; [x04]] true)
  = [(2, 4); (3, 4); (4, 4)]
  /\ progress_calls (download_file 0 [[x50; x4b]; []; [x03]; [x04]] true) = [].
Proof.
  split.
  - reflexivity.
  - apply (proj1 (proj2 (download_file_progress 0 [[x50; x4b]; []; [x03]; [x04]]))).
    lia.
Defined.

Section ProgressBar.

Lemma cells_length (c : cell) (n : Z) : 0 <= n -> Z.of_nat (length (cells c n)) = n.
Proof. intros H. unfold cells. rewrite repeat_length. lia. Qed.

(** The bar for a count within the total. *)
Lemma progress_bar_cells (downloaded total : Z) :
  0 < total -> 0 <= downloaded <= total ->
  let k := 50 * downloaded / total in
  let bar := cells Full k ++ cells Dash (50 - k) in
  progress_bar downloaded total
  = BarLine bar downloaded total :: (if downloaded =? total then [LineBreak] else [])
  /\ 0 <= k <= 50
  /\ length bar = 50%nat
  /\ (k = 50 <-> downloaded = total)
  /\ (In LineBreak (progress_bar downloaded total) <-> downloaded = total)
  /\ progress_bar downloaded 0 = [].
Proof.
  intros Ht Hd. cbv zeta.
  assert (0 <= 50 * downloaded / total <= 50) as Hk.
  { split; [apply Z.div_pos; lia|]. apply Z.div_le_upper_bound; lia. }
  assert (50 * downloaded / total = 50 <-> downloaded = total) as Hfull.
  { split.
    - intros E. assert (50 * total <= 50 * downloaded); [|lia].
      rewrite <- E at 1. rewrite Z.mul_comm. apply Z.mul_div_le. lia.
    - intros ->. now rewrite Z.div_mul by lia. }
  unfold progress_bar. destruct (Z.eqb_spec total 0) as [->|_]; [lia|].
  split; [reflexivity|]. split; [exact Hk|]. split; [|split; [exact Hfull|split]].
  - apply Nat2Z.inj. rewrite length_app, Nat2Z.inj_add, !cells_length by lia. lia.
  - destruct (Z.eqb_spec downloaded total) as [E|E]; cbn [In].
    + split; [intros _; exact E | intros _; right; left; reflexivity].
    + split; [intros [H|[]]; discriminate H | intros H; contradiction].
  - reflexivity.
Qed.

(** X3: for a count between 0 and a positive total the bar has exactly 50
    cells, floor(50 * downloaded / total) of them full and the rest dashes;
    it is full, and followed by the line break, exactly when the count has
    reached the total.  A total of 0 prints nothing. *)
Theorem progress_bar_shape (downloaded total : Z) :
  0 < total -> 0 <= downloaded <= total ->
  let k := 50 * downloaded / total in
  let bar := cells Full k ++ cells Dash (50 - k) in
  progress_bar downloaded total
  = BarLine bar downloaded total :: (if downloaded =? total then [LineBreak] else [])
  /\ 0 <= k <= 50
  /\ length bar = 50%nat
  /\ (k = 50 <-> downloaded = total)
  /\ (In LineBreak (progress_bar downloaded total) <-> downloaded = total)
  /\ progress_bar downloaded 0 = [].
Proof. exact (progress_bar_cells downloaded total). Qed.

Lemma progress_bar_shape_witness :
  progress_bar 1 3
  = [BarLine (cells Full 16 ++ cells Dash 34) 1 3]
  /\ progress_bar 3 3 = [BarLine (cells Full 50 ++ cells Dash 0) 3 3; LineBreak].
Proof.
  split.
  - apply (proj1 (progress_bar_shape 1 3 ltac:(lia) ltac:(lia))).
  - apply (proj1 (progress_bar_shape 3 3 ltac:(lia) ltac:(lia))).
Defined.

End ProgressBar.

Section DownloadWithBar.

Lemma sorted_snoc_inv (l : list Z) (x : Z) :
  StronglySorted Z.lt (l ++ [x]) -> List.Forall (fun y => y < x) l.
Proof.
  induction l as [|y l IH]; cbn; intros H; [constructor|].
  apply StronglySorted_inv in H as [Hs Hy]. constructor; [|auto].
  apply List.Forall_app in Hy as [_ Hy]. now apply List.Forall_inv in Hy.
Qed.

(** X4: when the announced total is the real size of a non-empty body, the
    download in [main] writes the whole body, every bar it prints has 50
    cells, and the output ends with the full bar followed by the only line
    break. *)
Theorem main_download_completes (chunks : list (list byte)) :
  let size := Z.of_nat (length (List.concat chunks)) in
  0 < size ->
  fst (main_download size chunks) = List.concat chunks
  /\ (forall bar d t, In (BarLine bar d t) (snd (main_download size chunks)) ->
        length bar = 50%nat)
  /\ exists init,
       snd (main_download size chunks)
       = init ++ [BarLine (cells Full 50) size size; LineBreak]
       /\ ~ In LineBreak init.
Proof.
  cbv zeta. intros Hpos. unfold main_download. cbn [fst snd].
  remember (Z.of_nat (length (List.concat chunks))) as size eqn:Hsize.
  destruct (download_calls size chunks) as (Hcalls & _). cbv zeta in Hcalls.
  destruct (Hcalls Hpos) as (Hs & Hall & _ & Hlast). clear Hcalls.
  rewrite <- Hsize in *.
  destruct Hlast as [initc Hinit].
  { intros E. rewrite E in Hsize. cbn in Hsize. lia. }
  assert (forall c, In c (progress_calls (download_file size chunks true)) ->
                    snd c = size /\ 0 < fst c <= size) as Hin
    by (apply List.Forall_forall; exact Hall).
  split; [apply (download_written size chunks chunks true)|]. split.
  - intros bar d t Hbar. apply in_flat_map in Hbar as ([d' t'] & Hc & Hbar).
    destruct (Hin _ Hc) as [Ht Hd]. cbn [fst snd] in *. subst t'.
    destruct (progress_bar_cells d' size Hpos ltac:(lia)) as (E & _ & Hlen & _).
    cbv zeta in *. rewrite E in Hbar.
    destruct Hbar as [[= <- <- <-]|Hbar]; [exact Hlen|].
    destruct (d' =? size); [destruct Hbar as [H|[]]; discriminate H | destruct Hbar].
  - rewrite Hinit in *. rewrite flat_map_app. cbn [flat_map fst snd app].
    destruct (progress_bar_cells size size Hpos ltac:(lia)) as (E & _ & _ & Hk & _).
    cbv zeta in *. rewrite E, Z.eqb_refl, (proj2 Hk eq_refl). cbn [app].
    change (cells Dash (50 - 50)) with (@nil cell). rewrite app_nil_r.
    exists (flat_map (fun c => progress_bar (fst c) (snd c)) initc
            ++ []).
    rewrite app_nil_r. split; [reflexivity|].
    intros Hlb. apply in_flat_map in Hlb as ([d' t'] & Hc & Hlb).
    rewrite map_app in Hs. cbn [map fst] in Hs. apply sorted_snoc_inv in Hs.
    rewrite List.Forall_map, List.Forall_forall in Hs. specialize (Hs _ Hc).
    destruct (Hin (d', t')) as [Ht Hd]; [apply in_or_app; now left|].
    cbn [fst snd] in *. subst t'.
    apply (progress_bar_cells d' size Hpos ltac:(lia)) in Hlb. lia.
Qed.

Lemma main_download_completes_witness :
  exists init,
    snd (main_download 3 [[x50; x4b]; []; [x03]])
    = init ++ [BarLine (cells Full 50) 3 3; LineBreak]
    /\ ~ In LineBreak init.
Proof.
  exact (proj2 (proj2 (main_download_completes [[x50; x4b]; []; [x03]]
                         ltac:(cbn; lia)))).
Defined.

End DownloadWithBar.

(* ===================================================================== *)
(** * Path Configurator: which file, and what a call leaves behind        *)
(* ===================================================================== *)

Section ConfigFile.

Variables (SHELL : string) (home : path).

Lemma find_first {A : Type} (P : A -> bool) (l : list A) (x : A) :
  find P l = Some x ->
  exists before after,
    l = before ++ x :: after /\ P x = true /\ forall y, In y before -> P y = false.
Proof.
  induction l as [|a l IH]; cbn; [discriminate|].
  destruct (P a) eqn:Pa.
  - intros [= ->]. exists [], l. repeat split; [exact Pa | intros y []].
  - intros H. destruct (IH H) as (before & after & -> & Px & Hb).
    exists (a :: before), after. repeat split; [exact Px|].
    intros y [<-|Hy]; auto.
Qed.

Lemma get_shell_config_file_candidates (files : gmap string string) :
  get_shell_config_file SHELL files
  = default ".bashrc"
      (find (fun f => bool_decide (is_Some (files !! f))) (config_candidates SHELL)).
Proof. reflexivity. Qed.

(** X5: the file chosen for the PATH entry is the first candidate of the
    shell's list that exists: no existing candidate is passed over for a
    later one.  When no candidate exists the choice is [.bashrc], whatever
    the shell; so the chosen file exists or is [.bashrc]. *)
Theorem get_shell_config_file_first (files : gmap string string) :
  let chosen := get_shell_config_file SHELL files in
  ((exists f, In f (config_candidates SHELL) /\ is_Some (files !! f)) ->
   exists before after,
     config_candidates SHELL = before ++ chosen :: after
     /\ is_Some (files !! chosen)
     /\ forall g, In g before -> files !! g = None)
  /\ ((forall f, In f (config_candidates SHELL) -> files !! f = None) ->
      chosen = ".bashrc")
  /\ (is_Some (files !! chosen) \/ chosen = ".bashrc").
Proof.
  cbv zeta. rewrite get_shell_config_file_candidates.
  destruct (find _ (config_candidates SHELL)) as [x|] eqn:F; cbn [default from_option id].
  - destruct (find_first _ _ _ F) as (before & after & E & Px & Hb).
    apply bool_decide_eq_true in Px.
    split; [|split].
    + intros _. exists before, after. split; [exact E|]. split; [exact Px|].
      intros g Hg. specialize (Hb g Hg). apply bool_decide_eq_false in Hb.
      destruct (files !! g); [exfalso; apply Hb; eauto | reflexivity].
    + intros Hnone. apply find_some in F as [Hin _]. rewrite (Hnone _ Hin) in Px.
      now destruct Px.
    + now left.
  - split; [|split].
    + intros (f & Hin & Hf). eapply find_none in F; [|exact Hin].
      apply bool_decide_eq_false in F. contradiction.
    + reflexivity.
    + now right.
Qed.

End ConfigFile.

Lemma get_shell_config_file_first_witness :
  get_shell_config_file "/usr/bin/zsh" {[ ".profile" := "umask 022" ]} = ".bashrc"
  /\ exists before after,
       config_candidates "/bin/bash" = before ++ ".profile" :: after
       /\ forall g, In g before ->
                    ({[ ".profile" := "umask 022" ]} : gmap string string) !! g = None.
Proof.
  split.
  - apply (proj1 (proj2 (get_shell_config_file_first "/usr/bin/zsh"
                           {[ ".profile" := "umask 022" ]}))).
    intros f [<-|[<-|[]]]; reflexivity.
  - destruct (proj1 (get_shell_config_file_first "/bin/bash"
                       {[ ".profile" := "umask 022" ]}))
      as (before & after & E & _ & Hb).
    + exists ".profile". split; [vm_compute; auto | vm_compute; eauto].
    + exists before, after. split; [exact E | exact Hb].
Defined.

Section ConfiguratorEffect.

Variables (SHELL : string) (home : path).

Lemma contains_trans (a b c : string) :
  contains a b = true -> contains b c = true -> contains a c = true.
Proof.
  intros (p1 & q1 & ->)%contains_spec (p2 & q2 & ->)%contains_spec.
  apply contains_spec. exists (p2 +:+ p1), (q1 +:+ q2).
  now rewrite !string_app_assoc.
Qed.

Lemma has_char_app (c : ascii) (a b : string) :
  has_char c (a +:+ b) = has_char c a || has_char c b.
Proof.
  induction a as [|d a IH]; [reflexivity|].
  cbn [String.append has_char]. now rewrite IH, orb_assoc.
Qed.

Lemma contains_has_char (c : ascii) (s t : string) :
  contains s t = true -> has_char c s = true -> has_char c t = true.
Proof.
  intros (a & b & ->)%contains_spec H.
  now rewrite !has_char_app, H, orb_true_r.
Qed.

(** No carriage return is ever read. *)
Lemma universal_newlines_no_cr (after_cr : bool) (t : string) :
  has_char CR (universal_newlines after_cr t) = false.
Proof.
  revert after_cr. induction t as [|c t IH]; intros after_cr; [reflexivity|].
  cbn [universal_newlines]. destruct (Ascii.eqb c CR) eqn:E.
  - cbn [has_char]. now rewrite IH.
  - destruct (Ascii.eqb c LF && after_cr); [apply IH|].
    cbn [has_char]. now rewrite E, IH.
Qed.

(** What a call changes and what it leaves. *)
Lemma update_path_frame (install_dir : path) (files : gmap string string) :
  let chosen := get_shell_config_file SHELL files in
  let run := update_path_in_shell_config SHELL home install_dir files in
  let files' := snd (fst run) in
  snd run = chosen
  /\ (forall f, f <> chosen -> files' !! f = files !! f)
  /\ (exists added, files' !! chosen = Some (default "" (files !! chosen) +:+ added))
  /\ (exists text,
        files' !! chosen = Some text
        /\ (contains (path_str install_dir) text = true
            \/ contains (path_str install_dir) (read_text text) = true)
        /\ (has_char LF (path_str install_dir) = false ->
            contains (path_str install_dir) text = true)
        /\ (has_char CR (path_str install_dir) = false ->
            contains (path_str install_dir) (read_text text) = true)).
Proof.
  cbv zeta. unfold update_path_in_shell_config.
  destruct (files !! get_shell_config_file SHELL files) as [content|] eqn:E.
  - destruct (contains (path_str install_dir) (read_text content)) eqn:C; cbn [fst snd].
    + split; [reflexivity|]. split; [reflexivity|]. split.
      * exists "". rewrite E. cbn. now rewrite string_app_nil_r.
      * exists content. split; [exact E|]. split; [now right|]. split; [|auto].
        intros Hlf. apply read_text_contains; [|exact Hlf | exact C].
        destruct (has_char CR (path_str install_dir)) eqn:Hcr; [|reflexivity].
        pose proof (contains_has_char CR _ _ C Hcr) as H.
        unfold read_text in H. now rewrite universal_newlines_no_cr in H.
    + split; [reflexivity|]. split; [intros f Hf; now rewrite lookup_insert_ne|].
      rewrite lookup_insert_eq. split; [eexists; reflexivity|].
      eexists. split; [reflexivity|].
      pose proof (path_block_contains install_dir content) as Hraw.
      split; [now left|]. split; [auto|]. apply path_block_read.
  - cbn [fst snd]. split; [reflexivity|].
    split; [intros f Hf; now rewrite lookup_insert_ne|].
    rewrite lookup_insert_eq. split; [eexists; reflexivity|].
    eexists. split; [reflexivity|].
    change (path_block install_dir) with ("" +:+ path_block install_dir).
    pose proof (path_block_contains install_dir "") as Hraw.
    split; [now left|]. split; [auto|]. apply path_block_read.
Qed.

(** X6: a call of the configurator touches one file only, the chosen one;
    it never removes text from it (the old text is the beginning of the new
    one); and afterwards that file exists and mentions the install path, in
    the text it stores or in the text that is read from it: in the stored
    text when the path holds no line feed, in the text read when the path
    holds no carriage return. *)
Theorem update_path_effect (install_dir : path) (files : gmap string string) :
  let chosen := get_shell_config_file SHELL files in
  let run := update_path_in_shell_config SHELL home install_dir files in
  let files' := snd (fst run) in
  snd run = chosen
  /\ (forall f, f <> chosen -> files' !! f = files !! f)
  /\ (exists added, files' !! chosen = Some (default "" (files !! chosen) +:+ added))
  /\ (exists text,
        files' !! chosen = Some text
        /\ (contains (path_str install_dir) text = true
            \/ contains (path_str install_dir) (read_text text) = true)
        /\ (has_char LF (path_str install_dir) = false ->
            contains (path_str install_dir) text = true)
        /\ (has_char CR (path_str install_dir) = false ->
            contains (path_str install_dir) (read_text text) = true)).
Proof. exact (update_path_frame install_dir files). Qed.

(** X7: once a path without a carriage return is configured, a later call
    for any install directory whose path text occurs inside it (like
    [/home/u/verus] inside [/home/u/verus-nightly], or the same directory
    again) is taken as already configured: nothing is appended for it. *)
Theorem update_path_skips_contained (first_dir second_dir : path)
    (files : gmap string string) :
  has_char CR (path_str first_dir) = false ->
  contains (path_str second_dir) (path_str first_dir) = true ->
  let files1 := snd (fst (update_path_in_shell_config SHELL home first_dir files)) in
  update_path_in_shell_config SHELL home second_dir files1
  = (["PATH already configured in "
        +:+ path_str (home ++ [get_shell_config_file SHELL files])],
     files1, get_shell_config_file SHELL files).
Proof.
  intros Hcr Hsub. cbv zeta.
  destruct (update_path_frame first_dir files)
    as (_ & _ & _ & text & Htext & _ & _ & Hc).
  cbv zeta in *. specialize (Hc Hcr).
  assert (get_shell_config_file SHELL
            (snd (fst (update_path_in_shell_config SHELL home first_dir files)))
          = get_shell_config_file SHELL files) as Hsame.
  { unfold update_path_in_shell_config.
    destruct (files !! get_shell_config_file SHELL files) as [content|];
      [destruct (contains (path_str first_dir) (read_text content))|]; cbn [fst snd];
      try reflexivity; apply get_shell_config_file_insert. }
  unfold update_path_in_shell_config at 1. rewrite Hsame, Htext.
  now rewrite (contains_trans _ _ _ Hsub Hc).
Qed.

End ConfiguratorEffect.

(** The text read is not the text stored: a path with a line feed is found
    in a file that stores a carriage return in its place, and the file is
    left as it is, without the path in it. *)
Example update_path_found_in_text_read :
  let install_dir := ["x" +:+ String LF "y"] in
  let files : gmap string string := {[ ".bashrc" := "/x" +:+ String CR "y" ]} in
  let run := update_path_in_shell_config "/bin/bash" ["home"; "u"] install_dir files in
  fst (fst run) = ["PATH already configured in /home/u/.bashrc"]
  /\ snd (fst run) !! ".bashrc" = Some ("/x" +:+ String CR "y")
  /\ contains (path_str install_dir) ("/x" +:+ String CR "y") = false.
Proof. vm_compute. repeat split; reflexivity. Qed.

Lemma update_path_effect_witness :
  let run :=
    update_path_in_shell_config "/bin/zsh" ["home"; "u"] ["home"; "u"; "verus"] ∅ in
  exists text,
    snd (fst run) !! ".bashrc" = Some text
    /\ contains "/home/u/verus" text = true
    /\ contains "/home/u/verus" (read_text text) = true.
Proof.
  cbv zeta.
  destruct (update_path_effect "/bin/zsh" ["home"; "u"] ["home"; "u"; "verus"] ∅)
    as (_ & _ & _ & text & Htext & _ & Hraw & Hread).
  exists text. split; [exact Htext|].
  split; [apply Hraw | apply Hread]; reflexivity.
Defined.

Lemma update_path_skips_contained_witness :
  let files1 :=
    snd (fst (update_path_in_shell_config "/bin/bash" ["home"; "u"]
                ["home"; "u"; "verus-nightly"] ∅)) in
  snd (fst (update_path_in_shell_config "/bin/bash" ["home"; "u"]
              ["home"; "u"; "verus"] files1)) = files1.
Proof.
  cbv zeta.
  rewrite (update_path_skips_contained "/bin/bash" ["home"; "u"]
             ["home"; "u"; "verus-nightly"] ["home"; "u"; "verus"] ∅);
    [reflexivity | reflexivity | vm_compute; reflexivity].
Defined.

(* ===================================================================== *)
(** * Asset selection: further facts                                      *)
(* ===================================================================== *)

Section SelectorFacts.

(** X8: with a non-empty tag the selector returns an asset of the list whose
    lower-cased name contains the tag as it is written, and no asset before
    it in the list does; it returns nothing exactly when no lower-cased name
    contains the tag. *)
Theorem find_asset_first_match (assets : list asset) (tag : string) :
  tag <> "" ->
  (forall a, find_asset_for_platform assets (Some tag) = Some a ->
     exists before after,
       assets = before ++ a :: after
       /\ contains tag (lower (name a)) = true
       /\ forall b, In b before -> contains tag (lower (name b)) = false)
  /\ (find_asset_for_platform assets (Some tag) = None
      <-> forall a, In a assets -> contains tag (lower (name a)) = false).
Proof.
  intros Hne. unfold find_asset_for_platform.
  destruct tag as [|c tag]; [congruence|]. cbn [truthy negb default from_option id].
  split.
  - intros a H. apply find_first in H. exact H.
  - split.
    + intros H a Ha. eapply find_none in H; eauto.
    + intros H. destruct (find _ assets) as [a|] eqn:F; [|reflexivity].
      apply find_some in F as [Hin Hc]. rewrite (H a Hin) in Hc. discriminate.
Qed.

Lemma find_asset_first_match_witness :
  exists before after,
    [macos_zip; linux_zip] = before ++ linux_zip :: after
    /\ contains "linux" (lower (name linux_zip)) = true
    /\ forall b, In b before -> contains "linux" (lower (name b)) = false.
Proof.
  apply (proj1 (find_asset_first_match [macos_zip; linux_zip] "linux"
                  ltac:(discriminate)) linux_zip).
  reflexivity.
Defined.

(** X9: a tag that holds an upper-case letter selects nothing, whatever
    the assets are called: the names are lowered before the comparison and
    the tag is not. *)
Theorem find_asset_tag_with_capitals (assets : list asset) (tag : string) :
  lower tag <> tag -> find_asset_for_platform assets (Some tag) = None.
Proof.
  intros H. unfold find_asset_for_platform.
  destruct (negb (truthy (Some tag))); [reflexivity|]. cbn [default from_option id].
  destruct (find _ assets) as [a|] eqn:F; [|reflexivity].
  apply find_some in F as [_ C]. apply contains_lower in C. contradiction.
Qed.

Lemma find_asset_tag_with_capitals_witness :
  find_asset_for_platform [linux_zip; macos_zip] (Some "Linux") = None.
Proof.
  apply (find_asset_tag_with_capitals [linux_zip; macos_zip] "Linux"). discriminate.
Defined.

Lemma table_tags_lower (os arch tag : string) :
  In (os, arch, tag) platform_table -> tag <> "" /\ lower tag = tag.
Proof.
  cbn. intros H.
  repeat (destruct H as [[= <- <- <-]|H]; [split; [discriminate | reflexivity]|]).
  destruct H.
Qed.

(** X10: the resolver reads the OS family and the architecture without
    regard to letter case, and every tag it returns is non-empty and in
    lower case and comes without a warning; for such a tag the selector's
    test is the case-insensitive first match. *)
Theorem resolver_tags (system machine : string) :
  get_platform_asset_pattern system machine
  = get_platform_asset_pattern (lower system) (lower machine)
  /\ forall tag,
       snd (get_platform_asset_pattern system machine) = Some tag ->
       fst (get_platform_asset_pattern system machine) = []
       /\ tag <> "" /\ lower tag = tag
       /\ forall assets,
            find_asset_for_platform assets (Some tag)
            = find (fun a => contains (lower tag) (lower (name a))) assets.
Proof.
  split.
  - unfold get_platform_asset_pattern. now rewrite !lower_twice.
  - intros tag H.
    assert (In (lower system, lower machine, tag) platform_table) as Hin.
    { apply patterns_table. unfold get_platform_asset_pattern in H.
      destruct (patterns !! lower system) as [by_machine|]; [|discriminate].
      cbn [mbind option_bind]. now destruct (by_machine !! lower machine). }
    rewrite (resolve_known _ _ _ Hin). destruct (table_tags_lower _ _ _ Hin) as [Hne Hl].
    split; [reflexivity|]. split; [exact Hne|]. split; [exact Hl|].
    intros assets. now apply find_asset_lower_tag.
Qed.

Lemma resolver_tags_witness :
  fst (get_platform_asset_pattern "WINDOWS" "AMD64") = []
  /\ find_asset_for_platform [linux_zip] (Some "x86-win") = None.
Proof.
  destruct (proj2 (resolver_tags "WINDOWS" "AMD64") "x86-win" eq_refl)
    as (Hw & _ & _ & Hf).
  split; [exact Hw|]. rewrite Hf. reflexivity.
Defined.

End SelectorFacts.

Section MainSelection.

Variables (platform : option string) (system machine : string).

Lemma truthy_spec (o : option string) :
  truthy o = true <-> exists tag, o = Some tag /\ tag <> "".
Proof.
  destruct o as [[|c s]|]; cbn; split; try discriminate.
  - intros (tag & [= <-] & H). congruence.
  - intros _. eexists. split; [reflexivity | discriminate].
  - reflexivity.
  - intros (tag & H & _). discriminate H.
Qed.

(** X11: whenever a tag is at hand, from [--platform] or because the host is
    in the platform table, [main] settles the selection without the terminal:
    the outcome is the same for every answer that could be read, and it is
    either the selector's asset or a plain return. *)
Theorem selection_without_prompt (assets : list asset) (choice choice' : option Z) :
  truthy platform = true
  \/ (exists tag, In (lower system, lower machine, tag) platform_table) ->
  main_select_asset platform system machine assets choice
  = main_select_asset platform system machine assets choice'
  /\ (forall a,
        snd (main_select_asset platform system machine assets choice) = Continue a ->
        In a assets)
  /\ forall code,
       snd (main_select_asset platform system machine assets choice) <> SysExit code.
Proof.
  intros H.
  assert (truthy (snd (platform_or_default platform system machine)) = true) as Ht.
  { unfold platform_or_default. destruct (truthy platform) eqn:Tp; [exact Tp|].
    destruct H as [H|[tag Hin]]; [discriminate|].
    rewrite (resolve_known _ _ _ Hin). apply truthy_spec. exists tag.
    split; [reflexivity | apply (table_tags_lower _ _ _ Hin)]. }
  unfold main_select_asset. destruct assets as [|a0 rest].
  - split; [reflexivity|]. split; [discriminate | discriminate].
  - destruct (platform_or_default platform system machine) as [out tag].
    cbn [snd] in Ht. rewrite Ht. split; [reflexivity|].
    destruct (find_asset_for_platform (a0 :: rest) tag) as [a|] eqn:F; cbn [snd].
    + split; [|discriminate]. intros a' [= <-].
      unfold find_asset_for_platform in F.
      destruct (negb (truthy tag)); [discriminate|].
      now apply find_some in F as [Hin _].
    + split; discriminate.
Qed.

(** X12: when [main] does ask, with no tag and at least two assets, it
    accepts every integer from -n up to n-1 for n assets: a non-negative
    answer picks the asset at that position, a negative one counts from the
    end, so -1 picks the last asset. *)
Theorem interactive_choice_range (assets : list asset) (i : Z) (a : asset) :
  truthy (snd (platform_or_default platform system machine)) = false ->
  (2 <= length assets)%nat ->
  let n := Z.of_nat (length assets) in
  (0 <= i < n -> assets !! Z.to_nat i = Some a ->
   snd (main_select_asset platform system machine assets (Some i)) = Continue a)
  /\ (- n <= i < 0 -> assets !! Z.to_nat (n + i) = Some a ->
      snd (main_select_asset platform system machine assets (Some i)) = Continue a)
  /\ snd (main_select_asset platform system machine assets (Some (-1)))
     = Continue (List.last assets a).
Proof.
  intros Ht Hlen. cbv zeta.
  assert (forall j b,
             py_index assets j = Ok b ->
             snd (main_select_asset platform system machine assets (Some j))
             = Continue b) as Hrun.
  { intros j b Hj. unfold main_select_asset.
    destruct (platform_or_default platform system machine) as [out tag].
    cbn [snd] in Ht. rewrite Ht.
    destruct assets as [|a0 [|a1 rest]]; cbn [length] in Hlen; [lia | lia |].
    now rewrite Hj. }
  assert (forall j b, 0 <= j < Z.of_nat (length assets) ->
                      assets !! Z.to_nat j = Some b -> py_index assets j = Ok b) as Hpos.
  { intros j b Hj Hb. unfold py_index.
    destruct (Z.ltb_spec j 0); [lia|]. destruct (Z.ltb_spec j 0); [lia|].
    destruct (Z.leb_spec (Z.of_nat (length assets)) j); [lia|]. cbn [orb].
    now rewrite Hb. }
  assert (forall j b, - Z.of_nat (length assets) <= j < 0 ->
                      assets !! Z.to_nat (Z.of_nat (length assets) + j) = Some b ->
                      py_index assets j = Ok b) as Hneg.
  { intros j b Hj Hb. unfold py_index.
    destruct (Z.ltb_spec j 0); [|lia].
    destruct (Z.ltb_spec (j + Z.of_nat (length assets)) 0); [lia|].
    destruct (Z.leb_spec (Z.of_nat (length assets)) (j + Z.of_nat (length assets)));
      [lia|]. cbn [orb].
    replace (j + Z.of_nat (length assets)) with (Z.of_nat (length assets) + j) by lia.
    now rewrite Hb. }
  split; [|split].
  - intros Hi Ha. apply Hrun, Hpos; assumption.
  - intros Hi Ha. apply Hrun, Hneg; assumption.
  - apply Hrun, Hneg; [lia|].
    replace (Z.to_nat (Z.of_nat (length assets) + -1)) with (length assets - 1)%nat by lia.
    destruct assets as [|a0 rest] using rev_ind; [cbn in Hlen; lia|].
    rewrite last_last, length_app. cbn [length].
    replace (length rest + 1 - 1)%nat with (length rest) by lia.
    now rewrite list_lookup_middle.
Qed.

End MainSelection.

Lemma selection_without_prompt_witness :
  main_select_asset None "Linux" "x86_64" [linux_zip; macos_zip] (Some 1)
  = main_select_asset None "Linux" "x86_64" [linux_zip; macos_zip] None.
Proof.
  apply (selection_without_prompt None "Linux" "x86_64").
  right. exists "x86-linux". simpl. tauto.
Defined.

Lemma interactive_choice_range_witness :
  snd (main_select_asset None "FreeBSD" "amd64" [linux_zip; macos_zip] (Some (-1)))
  = Continue macos_zip.
Proof.
  apply (proj2 (proj2 (interactive_choice_range None "FreeBSD" "amd64"
                         [linux_zip; macos_zip] 0 macos_zip eq_refl ltac:(simpl; lia)))).
Defined.

(* ===================================================================== *)
(** * [main]: what happens to the downloaded file                         *)
(* ===================================================================== *)

(** X13: in [main] the check on the downloaded file's name is the
    extractor's own test, so the unsupported-format exception cannot occur
    in a run.  When extraction is wanted and the name passes the check, a
    [temp_extract] left in the output directory is removed first; if there
    is none, or its removal succeeds, the file is handed to the reader the
    extractor picks.  In every other case [main] reports and returns.  The
    only way this stage ends the process with an error, status 1, is a
    [temp_extract] that is there and cannot be removed. *)
Theorem main_after_download_outcome (no_extract : bool) (filename output_dir : path)
    (fs : node) :
  let temp_extract_dir := output_dir ++ ["temp_extract"] in
  let run := main_after_download no_extract filename output_dir fs in
  (no_extract = false -> main_is_archive filename = true ->
   forall fs',
     (if exists_ fs temp_extract_dir then rmtree temp_extract_dir fs else Ok fs)
     = Ok fs' ->
     exists reader,
       snd run = Continue (reader, fs')
       /\ snd (extract_archive filename temp_extract_dir) = Ok reader)
  /\ (no_extract = true \/ main_is_archive filename = false -> snd run = Return)
  /\ (forall code,
        snd run = SysExit code ->
        code = 1
        /\ no_extract = false /\ main_is_archive filename = true
        /\ exists_ fs temp_extract_dir = true
        /\ exists e, rmtree temp_extract_dir fs = Raise e).
Proof.
  cbv zeta. unfold main_after_download.
  destruct (main_is_archive filename) eqn:Ha.
  - destruct (proj1 (main_is_archive_dispatch filename (output_dir ++ ["temp_extract"]))
                Ha) as [r Hr].
    destruct (extract_archive filename (output_dir ++ ["temp_extract"])) as [out res].
    cbn [snd] in Hr. subst res.
    destruct no_extract; cbn [negb].
    + split; [discriminate|]. split; [reflexivity|]. discriminate.
    + destruct (exists_ fs (output_dir ++ ["temp_extract"])) eqn:He.
      * destruct (rmtree (output_dir ++ ["temp_extract"]) fs) as [fs0|e] eqn:Hrm.
        -- split; [intros _ _ fs' [= <-]; eauto|].
           split; [intros [H|H]; discriminate H|]. discriminate.
        -- split; [discriminate|]. split; [intros [H|H]; discriminate H|].
           intros code [= <-]. eauto 10.
      * split; [intros _ _ fs' [= <-]; eauto|].
        split; [intros [H|H]; discriminate H|]. discriminate.
  - split; [discriminate|]. split; [now destruct (negb no_extract)|].
    intros code. now destruct (negb no_extract).
Qed.

Lemma main_after_download_outcome_witness :
  let fs := Dir 493 [("downloads", Dir 493 [("verus.TGZ.zip", File 420 text_bytes);
                                     ("temp_extract", Dir 493 [])])] in
  snd (main_after_download false ["downloads"; "notes.rar"] ["downloads"] fs) = Return
  /\ exists reader,
       snd (main_after_download false ["downloads"; "verus.TGZ.zip"] ["downloads"] fs)
       = Continue (reader,
                   Dir 493 [("downloads",
                             Dir 493 [("verus.TGZ.zip", File 420 text_bytes)])]).
Proof.
  cbv zeta. split.
  - apply (proj1 (proj2 (main_after_download_outcome false ["downloads"; "notes.rar"]
                           ["downloads"] _))).
    right. reflexivity.
  - destruct (proj1 (main_after_download_outcome false ["downloads"; "verus.TGZ.zip"]
                       ["downloads"]
                       (Dir 493 [("downloads",
                                  Dir 493 [("verus.TGZ.zip", File 420 text_bytes);
                                           ("temp_extract", Dir 493 [])])]))
                eq_refl eq_refl
                (Dir 493 [("downloads",
                           Dir 493 [("verus.TGZ.zip", File 420 text_bytes)])])
                eq_refl)
      as (reader & H & _).
    exists reader. exact H.
Defined.

(** A regular file called [temp_extract] in the output directory cannot be
    removed as a tree: the run ends with status 1 before the extractor is
    called. *)
Example main_stale_temp_extract_file :
  main_after_download false ["downloads"; "verus.zip"] ["downloads"]
    (Dir 493 [("downloads", Dir 493 [("verus.zip", File 420 text_bytes);
                                     ("temp_extract", File 420 [])])])
  = (["Error during extraction/installation: Not a directory";
      "You can manually extract and install the downloaded archive."], SysExit 1).
Proof. reflexivity. Qed.

(* ===================================================================== *)
(** * Binary discovery: further facts                                     *)
(* ===================================================================== *)

Section DiscoveryFacts.

Lemma is_prefix_app (p r : path) : is_prefix p (p ++ r) = true.
Proof.
  induction p as [|c p IH]; [reflexivity|]. cbn [app is_prefix].
  now rewrite String.eqb_refl.
Qed.

Lemma is_prefix_spec (p q : path) : is_prefix p q = true <-> exists r, q = p ++ r.
Proof.
  split.
  - revert q. induction p as [|c p IH]; intros q H; [now exists q|].
    destruct q as [|c' q]; [discriminate|]. cbn [is_prefix] in H.
    apply andb_true_iff in H as [E H]. apply String.eqb_eq in E. subst c'.
    destruct (IH _ H) as [r ->]. now exists r.
  - intros [r ->]. apply is_prefix_app.
Qed.

Lemma find_in_walk_name (nm : string) (walk : list (path * list string * list string))
    (b : path) :
  find_in_walk nm walk = Some b -> path_name b = nm.
Proof.
  unfold find_in_walk. destruct (find _ walk); [|discriminate].
  intros [= <-]. apply last_last.
Qed.

Lemma find_verus_binary_name (fs : node) (extract_dir b : path) :
  find_verus_binary fs extract_dir = Some b ->
  path_name b = "verus" \/ path_name b = "verus.exe".
Proof.
  unfold find_verus_binary. cbn [find_verus_binary_loop].
  destruct (exists_ fs (extract_dir ++ ["verus"]));
    [intros [= <-]; left; apply last_last|].
  destruct (find_in_walk "verus" _) eqn:W1;
    [intros [= <-]; left; eapply find_in_walk_name, W1|].
  destruct (exists_ fs (extract_dir ++ ["verus.exe"]));
    [intros [= <-]; right; apply last_last|].
  destruct (find_in_walk "verus.exe" _) eqn:W2;
    [intros [= <-]; right; eapply find_in_walk_name, W2 | discriminate].
Qed.

(** X14: in a file system where no directory lists a name twice, what
    discovery returns is an existing entry called [verus] or [verus.exe]
    that lies below the extracted root, in a directory of the tree. *)
Theorem find_verus_binary_sound (fs : node) (extract_dir b : path) :
  wf fs = true ->
  find_verus_binary fs extract_dir = Some b ->
  (path_name b = "verus" \/ path_name b = "verus.exe")
  /\ exists_ fs b = true
  /\ is_prefix extract_dir (parent b) = true
  /\ b = parent b ++ [path_name b]
  /\ exists m es, node_at (parent b) fs = Some (Dir m es).
Proof.
  intros Hwf Hfind. split; [eapply find_verus_binary_name, Hfind|].
  destruct (find_verus_binary_shape _ _ _ Hwf Hfind)
    as (q & nm & m & es & x & -> & Hdir & Hnm).
  unfold parent, path_name. rewrite removelast_last, last_last.
  split; [|split; [|split]].
  - unfold exists_. rewrite node_at_app, Hdir. cbn. now rewrite Hnm.
  - apply is_prefix_app.
  - reflexivity.
  - eauto.
Qed.

Lemma find_verus_binary_sound_witness :
  exists_ fs_two_binaries ["out"; "temp_extract"; "verus-x86-linux"; "verus"] = true.
Proof.
  apply (find_verus_binary_sound fs_two_binaries ["out"; "temp_extract"]
           ["out"; "temp_extract"; "verus-x86-linux"; "verus"]).
  - vm_compute. reflexivity.
  - reflexivity.
Defined.




End DiscoveryFacts.

(* ===================================================================== *)
(** * Permission normalization: further facts                             *)
(* ===================================================================== *)

Section NormalizationFacts.

Variables (system : string) (install_dir : path).

Lemma rglob_below (fs : node) (p : path) :
  In p (rglob fs install_dir) -> exists rel, rel <> [] /\ p = install_dir ++ rel.
Proof.
  unfold rglob. destruct (node_at install_dir fs) as [n|]; [|intros []].
  intros ([root es] & Hd & Hp)%in_flat_map. cbn [fst snd] in Hp.
  apply in_map_iff in Hp as (e & <- & _).
  destruct (walk_dirs_prefix _ _ _ Hd) as [q Hq]. cbn [fst] in Hq. subst root.
  exists (q ++ [fst e]). split; [|now rewrite app_assoc].
  intros E. now apply app_eq_nil in E as [_ E].
Qed.

Lemma make_all_windows (fs : node) :
  system = "Windows" -> make_all_binaries_executable system install_dir fs = ([], fs).
Proof. intros ->. reflexivity. Qed.

(** X16: normalization changes nothing but modes of regular files strictly
    below the install directory, and there it only adds the owner-execute
    bit: every path shows the same kind of node and the same bytes as
    before, no entry appears or disappears, directories and everything
    outside the install directory keep their modes. *)
Theorem normalization_footprint (fs : node) (q : path) :
  let after := snd (make_all_binaries_executable system install_dir fs) in
  look after q = look fs q
  \/ exists rel m d,
       rel <> [] /\ q = install_dir ++ rel
       /\ look fs q = Some (m, Some d)
       /\ recognized q m d = true
       /\ look after q = Some (Z.lor m S_IEXEC, Some d).
Proof.
  cbv zeta. destruct (String.eqb_spec system "Windows") as [Hw|Hw].
  { rewrite (make_all_windows fs Hw). now left. }
  rewrite (look_make_all system Hw). case_bool_decide as Hin; [|now left].
  apply list_elem_of_In, rglob_below in Hin as (rel & Hrel & ->).
  destruct (look fs (install_dir ++ rel)) as [[m [d|]]|] eqn:L; cbn; try now left.
  destruct (recognized (install_dir ++ rel) m d) eqn:R; [|now left].
  right. exists rel, m, d. auto.
Qed.

(** X17: normalization is idempotent: a second pass over the install
    directory leaves every path with the mode, kind and bytes the first
    pass gave it. *)
Theorem normalization_idempotent (fs : node) (q : path) :
  let once := snd (make_all_binaries_executable system install_dir fs) in
  let twice := snd (make_all_binaries_executable system install_dir once) in
  look twice q = look once q.
Proof.
  cbv zeta. destruct (String.eqb_spec system "Windows") as [Hw|Hw].
  { now rewrite !(make_all_windows _ Hw). }
  rewrite (look_make_all system Hw install_dir (snd _)).
  case_bool_decide as Hin; [|reflexivity].
  apply list_elem_of_In, rglob_below in Hin as (rel & Hrel & ->).
  rewrite (look_make_all system Hw install_dir fs).
  destruct (look fs (install_dir ++ rel)) as [v|] eqn:L.
  - assert (In (install_dir ++ rel) (rglob fs install_dir)) as Hin.
    { assert (is_Some (node_at (install_dir ++ rel) fs)) as [x Hx]
        by (apply look_is_Some; rewrite L; eauto).
      eapply rglob_complete; eauto. }
    rewrite bool_decide_eq_true_2 by (apply list_elem_of_In; exact Hin).
    cbn. now rewrite touch_twice.
  - now case_bool_decide.
Qed.

Lemma known_name_likely (file_path : path) :
  known_name file_path = true -> likely_binary file_path = true.
Proof.
  unfold known_name, likely_binary, startswith_any, str_in. cbn [existsb].
  rewrite !orb_false_r. intros H.
  apply orb_true_iff in H as [H|H].
  - repeat (apply orb_true_iff in H as [H|H]); apply String.eqb_eq in H.
    + rewrite H. cbn. now rewrite !orb_true_r.
    + rewrite H. cbn. now rewrite !orb_true_r.
    + unfold suffix. rewrite H. reflexivity.
  - apply orb_true_iff in H as [H|H]; rewrite H; now rewrite !orb_true_r.
Qed.

(** X18: on a platform other than Windows a readable regular file below the
    install directory that is called [verus], [rust_verify] or [z3], or
    whose name starts with [rust_] or [verus], gets the owner-execute bit
    whatever its bytes are. *)
Theorem normalization_by_name (rel : path) (fs : node) (m : Z) (d : list byte) :
  system <> "Windows" ->
  rel <> [] ->
  node_at (install_dir ++ rel) fs = Some (File m d) ->
  Z.testbit m S_IRUSR_bit = true ->
  known_name (install_dir ++ rel) = true ->
  let after := snd (make_all_binaries_executable system install_dir fs) in
  node_at (install_dir ++ rel) after = Some (File (Z.lor m S_IEXEC) d)
  /\ Z.testbit (Z.lor m S_IEXEC) 6 = true.
Proof.
  intros Hsys Hrel Hfile Hread Hname. cbv zeta. split.
  - apply look_file. rewrite (look_make_all system Hsys).
    rewrite bool_decide_eq_true_2
      by (apply list_elem_of_In; eapply rglob_complete; eauto).
    apply look_file in Hfile. rewrite Hfile. cbn [fmap option_fmap option_map touch].
    unfold recognized. rewrite (known_name_likely _ Hname), Hread, Hname.
    now rewrite orb_true_r.
  - rewrite Z.lor_spec. apply orb_true_r.
Qed.

End NormalizationFacts.

Lemma normalization_by_name_witness :
  node_at ["opt"; "verus"; "rust_verify"]
    (snd (make_all_binaries_executable "Darwin" ["opt"; "verus"]
            (Dir 493 [("opt", Dir 493 [("verus", Dir 493
               [("rust_verify", File 420 text_bytes)])])])))
  = Some (File 484 text_bytes).
Proof.
  apply (normalization_by_name "Darwin" ["opt"; "verus"] ["rust_verify"]
           (Dir 493 [("opt", Dir 493 [("verus", Dir 493
              [("rust_verify", File 420 text_bytes)])])]) 420 text_bytes);
    try reflexivity; discriminate.
Defined.

(* ===================================================================== *)
(** * Installation: further facts                                         *)
(* ===================================================================== *)

Section InstallFacts.

Variables (system : string) (dmode : Z) (home : path).

Lemma node_at_remove_below (p r : path) (fs : node) :
  p <> [] -> node_at (p ++ r) (remove_at p fs) = None.
Proof.
  revert fs. induction p as [|c p IH]; intros fs Hp; [congruence|].
  destruct fs as [m d|m es]; [reflexivity|].
  destruct (decide (p = [])) as [->|Hne].
  - cbn [remove_at app node_at]. now rewrite entry_drop, String.eqb_refl.
  - rewrite remove_at_cons by exact Hne. cbn [app node_at].
    rewrite entry_alter, String.eqb_refl.
    destruct (entry c es) as [ch|]; cbn [option_map]; [now apply IH | reflexivity].
Qed.

Lemma node_at_prefix_dir (p r : path) (fs : node) (m : Z) (es : list (string * node)) :
  node_at (p ++ r) fs = Some (Dir m es) ->
  exists m' es', node_at p fs = Some (Dir m' es').
Proof.
  rewrite node_at_app. destruct (node_at p fs) as [[m' d'|m' es']|]; cbn; eauto;
    try discriminate.
  destruct r; discriminate.
Qed.

(** What a run that returns has done, step by step. *)
Lemma setup_inv (extract_dir : path) (install_dir : option path) (fs fs1 : node)
    (out : trace) (idir ibin : path) :
  setup_verus_installation system dmode home extract_dir install_dir fs
  = Ok (out, fs1, idir, ibin) ->
  exists b src fs_c,
    find_verus_binary fs extract_dir = Some b
    /\ idir = default (home ++ ["verus"]) install_dir
    /\ ibin = idir ++ [path_name b]
    /\ node_at (parent b) (remove_at idir fs) = Some src
    /\ put_at dmode idir src (remove_at idir fs) = Ok fs_c
    /\ make_executable system ibin
         (snd (make_all_binaries_executable system idir fs_c)) = Ok fs1.
Proof.
  unfold setup_verus_installation.
  remember (default (home ++ ["verus"]) install_dir) as d eqn:Hd.
  destruct (find_verus_binary fs extract_dir) as [b|]; [|discriminate].
  set (step := if exists_ fs d then _ else _).
  assert ((exists e, step = Raise e) \/ exists o, step = Ok (o, remove_at d fs))
    as [[e ->]|[o ->]]; [|discriminate|].
  { subst step. unfold exists_, rmtree.
    destruct (node_at d fs) as [[m0 d0|m0 es0]|] eqn:E.
    - left. eauto.
    - destruct d; [left; eauto|].
      destruct (can_empty (Dir m0 es0) && _); [right | left]; eauto.
    - right. rewrite (remove_at_missing _ _ E). eauto. }
  cbn [mbind result_bind fst snd]. unfold copytree.
  destruct (node_at (parent b) (remove_at d fs)) as [[m0 d0|m0 es0]|] eqn:Hsrc;
    try discriminate.
  destruct (Z.testbit m0 S_IRUSR_bit); [|discriminate].
  destruct (put_at dmode d (Dir m0 es0) (remove_at d fs)) as [fs_c|e] eqn:Hput;
    [|discriminate].
  cbn [mbind result_bind].
  destruct (all_readable (Dir m0 es0) && _); [|discriminate].
  cbn [mbind result_bind].
  destruct (make_executable system (d ++ [path_name b]) _) as [fs2|e] eqn:Hfin;
    [|discriminate].
  cbn [mbind result_bind]. intros [= _ <- <- <-].
  exists b, (Dir m0 es0), fs_c. repeat split; auto.
Qed.

(** X19: a run of the installer that returns has changed nothing outside
    the install directory and its ancestors: every path that lies apart
    from the install directory holds what it held before. *)
Theorem install_frame (extract_dir : path) (install_dir : option path)
    (fs fs1 : node) (out : trace) (idir ibin q : path) :
  setup_verus_installation system dmode home extract_dir install_dir fs
  = Ok (out, fs1, idir, ibin) ->
  path_disjoint idir q = true ->
  node_at q fs1 = node_at q fs.
Proof.
  intros (b & src & fs_c & _ & _ & -> & _ & Hput & Hfin)%setup_inv Hq.
  rewrite (finish_disjoint system _ _ _ _ _ Hq Hfin).
  rewrite (node_at_put_disjoint _ _ _ _ _ _ Hput Hq).
  now apply node_at_remove_disjoint.
Qed.

(** X20: on a platform other than Windows, after a run that returns, the
    binary path the run reports holds the bytes (or, for a directory, the
    kind) of the binary that discovery found, with the owner-execute bit
    added to its mode. *)
Theorem installed_binary_executable (extract_dir : path) (install_dir : option path)
    (fs fs1 : node) (out : trace) (idir ibin b : path) :
  system <> "Windows" ->
  wf fs = true ->
  find_verus_binary fs extract_dir = Some b ->
  path_disjoint idir (parent b) = true ->
  setup_verus_installation system dmode home extract_dir install_dir fs
  = Ok (out, fs1, idir, ibin) ->
  ibin = idir ++ [path_name b]
  /\ exists m k,
       look fs b = Some (m, k)
       /\ look fs1 ibin = Some (Z.lor m S_IEXEC, k)
       /\ Z.testbit (Z.lor m S_IEXEC) 6 = true.
Proof.
  intros Hsys Hwf Hfind Hdis
    (b' & src & fs_c & Hfind' & _ & -> & Hsrc & Hput & Hfin)%setup_inv.
  rewrite Hfind in Hfind'. injection Hfind' as <-. split; [reflexivity|].
  destruct (find_verus_binary_shape _ _ _ Hwf Hfind)
    as (q & nm & m0 & es0 & x & Hb & Hdir & Hnm).
  assert (parent b = extract_dir ++ q) as Eparent
    by (rewrite Hb; apply removelast_last).
  assert (path_name b = nm) as Ename by (rewrite Hb; apply last_last).
  rewrite Eparent in *. rewrite Ename in *.
  rewrite node_at_remove_disjoint in Hsrc by exact Hdis.
  rewrite Hdir in Hsrc. injection Hsrc as <-.
  pose proof (node_at_put _ _ _ _ _ Hput) as Hinst.
  assert (look fs_c (idir ++ [nm]) = look fs b) as Hcopy.
  { unfold look. rewrite Hb, !node_at_app, Hinst.
    rewrite <- node_at_app, Hdir. reflexivity. }
  assert (is_Some (look fs b)) as [[m k] Hlook].
  { apply look_is_Some. rewrite Hb, node_at_app, Hdir. cbn. rewrite Hnm. eauto. }
  exists m, k. split; [exact Hlook|]. split; [|rewrite Z.lor_spec; apply orb_true_r].
  unfold make_executable in Hfin.
  destruct (String.eqb_spec system "Windows") as [|_]; [contradiction|].
  cbn [negb] in Hfin.
  destruct (node_at (idir ++ [nm]) _) as [n|] eqn:En; [|discriminate].
  injection Hfin as <-. rewrite look_chmod, decide_True by reflexivity.
  destruct (look_mode _ _ _ En) as [k' Hk']. rewrite Hk'. cbn.
  rewrite (look_make_all system Hsys), Hcopy, Hlook in Hk'.
  assert (Some (mode_of n, k') = Some (m, k)
          \/ Some (mode_of n, k') = Some (Z.lor m S_IEXEC, k)) as [E|E].
  { rewrite <- Hk'. case_bool_decide; [|now left]. cbn.
    destruct k as [d|]; cbn; [|now left].
    destruct (recognized (idir ++ [nm]) m d); [right | left]; reflexivity. }
  - now injection E as -> ->.
  - injection E as -> ->. now rewrite <- Z.lor_assoc, Z.lor_diag.
Qed.

(** X21: when the install directory is, or lies above, the directory of
    the binary discovered in an extracted tree that can be walked, the run
    never returns: the install directory is
    there, and either its owner cannot remove it and the error of the
    removal is raised, or it is removed, binary and all, and the copy that
    follows raises [OSError] for the directory that is gone. *)
Theorem install_over_source_fails (extract_dir install_dir b : path) (fs : node) :
  wf fs = true ->
  (forall root, node_at extract_dir fs = Some root -> walkable root = true) ->
  install_dir <> [] ->
  find_verus_binary fs extract_dir = Some b ->
  is_prefix install_dir (parent b) = true ->
  let run :=
    setup_verus_installation system dmode home extract_dir (Some install_dir) fs in
  exists_ fs install_dir = true
  /\ (exists e, run = Raise e)
  /\ (forall fs', rmtree install_dir fs = Ok fs' ->
      fs' = remove_at install_dir fs
      /\ exists_ fs' b = false
      /\ run = Raise (OSError "No such file or directory"))
  /\ (forall e, rmtree install_dir fs = Raise e -> run = Raise e).
Proof.
  intros Hwf _ Hne Hfind Hpre. cbv zeta.
  destruct (find_verus_binary_shape _ _ _ Hwf Hfind)
    as (q & nm & m0 & es0 & x & Hb & Hdir & Hnm).
  assert (parent b = extract_dir ++ q) as Eparent
    by (rewrite Hb; apply removelast_last).
  rewrite Eparent in Hpre. apply is_prefix_spec in Hpre as [r Hr].
  rewrite Hr in Hdir.
  destruct (node_at_prefix_dir _ _ _ _ _ Hdir) as (m' & es' & Hinst).
  assert (exists_ fs install_dir = true) as Hex by (unfold exists_; now rewrite Hinst).
  assert (forall fs', rmtree install_dir fs = Ok fs' -> fs' = remove_at install_dir fs)
    as Hok.
  { intros fs'. unfold rmtree. rewrite Hinst. destruct install_dir; [congruence|].
    destruct (can_empty (Dir m' es') && _); intros H;
      [now injection H as <- | discriminate H]. }
  assert (forall fs', rmtree install_dir fs = Ok fs' ->
            setup_verus_installation system dmode home extract_dir (Some install_dir) fs
            = Raise (OSError "No such file or directory")) as Hgone.
  { intros fs' Hrm. pose proof (Hok _ Hrm) as ->.
    unfold setup_verus_installation. rewrite Hfind. cbn [default from_option id].
    rewrite Hex, Hrm. cbn [mbind result_bind fst snd].
    unfold copytree. rewrite Eparent, Hr. now rewrite node_at_remove_below. }
  assert (forall e, rmtree install_dir fs = Raise e ->
            setup_verus_installation system dmode home extract_dir (Some install_dir) fs
            = Raise e) as Hkept.
  { intros e Hrm. unfold setup_verus_installation. rewrite Hfind.
    cbn [default from_option id]. now rewrite Hex, Hrm. }
  split; [exact Hex|]. split; [|split].
  - destruct (rmtree install_dir fs) as [fs'|e] eqn:Hrm; eauto.
  - intros fs' Hrm. split; [now apply Hok|]. split; [|now apply (Hgone fs')].
    rewrite (Hok _ Hrm). unfold exists_. rewrite Hb, Hr, <- app_assoc.
    now rewrite node_at_remove_below.
  - exact Hkept.
Qed.

End InstallFacts.

Lemma install_frame_witness :
  exists out fs1,
    setup_verus_installation "Linux" 493 ["home"; "u"] ["out"; "temp_extract"]
      (Some ["home"; "u"; "verus"]) fs_old_install
    = Ok (out, fs1, ["home"; "u"; "verus"], ["home"; "u"; "verus"; "verus"])
    /\ node_at ["out"] fs1 = node_at ["out"] fs_old_install.
Proof.
  eexists _, _. split; [vm_compute; reflexivity|].
  eapply (install_frame "Linux" 493 ["home"; "u"] ["out"; "temp_extract"]
            (Some ["home"; "u"; "verus"]) fs_old_install);
    [vm_compute; reflexivity | reflexivity].
Defined.

Lemma installed_binary_executable_witness :
  exists out fs1 m k,
    setup_verus_installation "Linux" 493 ["home"; "u"] ["out"; "temp_extract"]
      (Some ["home"; "u"; "verus"]) fs_old_install
    = Ok (out, fs1, ["home"; "u"; "verus"], ["home"; "u"; "verus"; "verus"])
    /\ look fs_old_install ["out"; "temp_extract"; "verus-x86-linux"; "verus"]
       = Some (m, k)
    /\ look fs1 ["home"; "u"; "verus"; "verus"] = Some (Z.lor m S_IEXEC, k)
    /\ Z.testbit (Z.lor m S_IEXEC) 6 = true.
Proof.
  eexists _, _.
  assert (setup_verus_installation "Linux" 493 ["home"; "u"] ["out"; "temp_extract"]
            (Some ["home"; "u"; "verus"]) fs_old_install
          = Ok (_, _, ["home"; "u"; "verus"], ["home"; "u"; "verus"; "verus"])) as Hrun
    by (vm_compute; reflexivity).
  destruct (installed_binary_executable "Linux" 493 ["home"; "u"]
              ["out"; "temp_extract"] (Some ["home"; "u"; "verus"]) fs_old_install
              _ _ ["home"; "u"; "verus"] _
              ["out"; "temp_extract"; "verus-x86-linux"; "verus"]
              ltac:(discriminate) ltac:(vm_compute; reflexivity) eq_refl eq_refl Hrun)
    as (_ & m & k & H).
  exists m, k. split; [exact Hrun | exact H].
Defined.

Lemma install_over_source_fails_witness :
  setup_verus_installation "Linux" 493 ["home"; "u"] ["out"; "temp_extract"]
    (Some ["out"]) fs_two_binaries
  = Raise (OSError "No such file or directory").
Proof.
  refine (proj2 (proj2 (proj1 (proj2 (proj2
            (install_over_source_fails "Linux" 493 ["home"; "u"]
               ["out"; "temp_extract"] ["out"]
               ["out"; "temp_extract"; "verus-x86-linux"; "verus"]
               fs_two_binaries _ _ _ eq_refl eq_refl))) _ eq_refl))).
  - vm_compute. reflexivity.
  - intros root H. vm_compute in H. injection H as <-. reflexivity.
  - discriminate.
Defined.

